(** * Mirrors simulation: the optics solver and the ray geometry

    A shallow embedding of [src/physics.ts] (mirror-equation solver) and of
    the geometric part of [src/App.tsx] (line/mirror intersection, image-tip
    reconciliation, construction rays, inverse-drive handler).

    JavaScript numbers are accessed through the interface [JSNumber], which
    lists exactly the operations the two files use.  Two instances are given:

    - [number], the idealised numbers: every finite value is an exact real
      (no rounding, no overflow, zero is unsigned and divides like [+0]),
      extended with [Infinity], [-Infinity] and [NaN] combined the
      IEEE 754 way.  The properties are proved on this instance.
    - [float], the binary64 numbers of the kernel, on which the programs
      run as they do in a JavaScript engine; used to replay concrete
      scenarios. *)

From Stdlib Require Import Reals Lra ZArith QArith Qreals Bool List String.
From Stdlib Require Uint63 PrimFloat.
Import ListNotations.

Set Implicit Arguments.

(** ** The number interface *)

Class JSNumber (num : Type) : Type := {
  lit : Z -> num;                   (* an integer literal *)
  Infinity : num;
  neg : num -> num;                 (* unary minus *)
  add : num -> num -> num;
  sub : num -> num -> num;
  mul : num -> num -> num;
  div : num -> num -> num;
  lt : num -> num -> bool;          (* a < b *)
  strictEq : num -> num -> bool;    (* a === b *)
  Math_abs : num -> num;
  Math_sqrt : num -> num
}.

Declare Scope js_scope.
Delimit Scope js_scope with js.
Notation "a + b" := (add a b) : js_scope.
Notation "a - b" := (sub a b) : js_scope.
Notation "a * b" := (mul a b) : js_scope.
Notation "a / b" := (div a b) : js_scope.
Notation "- a" := (neg a) : js_scope.
Notation "a < b" := (lt a b) : js_scope.
Notation "a > b" := (lt b a) (only parsing) : js_scope.
Notation "a === b" := (strictEq a b) (at level 70, no associativity) : js_scope.

(** The functions of [Math] that only the drawing code calls. *)
Class JSMath (num : Type) : Type := {
  Math_PI : num;
  Math_min : num -> num -> num;
  Math_asin : num -> num;
  Math_atan2 : num -> num -> num;
  Math_cos : num -> num;
  Math_sin : num -> num;
  Math_tan : num -> num
}.

(** ** Idealised numbers *)

Inductive number : Type :=
| Fin (r : R)
| PInf
| NInf
| NaN.

Module Ideal.

Definition inf (positive : bool) : number := if positive then PInf else NInf.

(** An infinity of the given sign times (or a nonzero value of that sign
    over) the finite [r]: the sign of [r] decides, and [0] gives [NaN]. *)
Definition inf_signed (positive : bool) (r : R) : number :=
  match total_order_T 0 r with
  | inleft (left _) => inf positive
  | inleft (right _) => NaN
  | inright _ => inf (negb positive)
  end.

Definition neg (a : number) : number :=
  match a with
  | Fin r => Fin (- r)
  | PInf => NInf
  | NInf => PInf
  | NaN => NaN
  end.

Definition add (a b : number) : number :=
  match a, b with
  | NaN, _ | _, NaN => NaN
  | Fin r, Fin s => Fin (r + s)
  | PInf, NInf | NInf, PInf => NaN
  | PInf, _ | _, PInf => PInf
  | NInf, _ | _, NInf => NInf
  end.

Definition sub (a b : number) : number := add a (neg b).

Definition mul (a b : number) : number :=
  match a, b with
  | NaN, _ | _, NaN => NaN
  | Fin r, Fin s => Fin (r * s)
  | PInf, Fin r | Fin r, PInf => inf_signed true r
  | NInf, Fin r | Fin r, NInf => inf_signed false r
  | PInf, PInf | NInf, NInf => PInf
  | PInf, NInf | NInf, PInf => NInf
  end.

Definition div (a b : number) : number :=
  match a, b with
  | NaN, _ | _, NaN => NaN
  | Fin r, Fin s => if Req_dec_T s 0 then inf_signed true r else Fin (r / s)
  | Fin _, PInf | Fin _, NInf => Fin 0
  | PInf, Fin s => if Rlt_dec s 0 then NInf else PInf
  | NInf, Fin s => if Rlt_dec s 0 then PInf else NInf
  | PInf, PInf | PInf, NInf | NInf, PInf | NInf, NInf => NaN
  end.

Definition lt (a b : number) : bool :=
  match a, b with
  | Fin r, Fin s => if Rlt_dec r s then true else false
  | NInf, Fin _ | NInf, PInf | Fin _, PInf => true
  | _, _ => false
  end.

Definition strictEq (a b : number) : bool :=
  match a, b with
  | Fin r, Fin s => if Req_dec_T r s then true else false
  | PInf, PInf | NInf, NInf => true
  | _, _ => false
  end.

Definition abs (a : number) : number :=
  match a with
  | Fin r => Fin (Rabs r)
  | PInf | NInf => PInf
  | NaN => NaN
  end.

Definition sqrt (a : number) : number :=
  match a with
  | Fin r => if Rlt_dec r 0 then NaN else Fin (R_sqrt.sqrt r)
  | PInf => PInf
  | NInf | NaN => NaN
  end.

End Ideal.

#[export] Instance number_JSNumber : JSNumber number := {
  lit z := Fin (IZR z);
  Infinity := PInf;
  neg := Ideal.neg;
  add := Ideal.add;
  sub := Ideal.sub;
  mul := Ideal.mul;
  div := Ideal.div;
  lt := Ideal.lt;
  strictEq := Ideal.strictEq;
  Math_abs := Ideal.abs;
  Math_sqrt := Ideal.sqrt
}.

(** ** Binary64 numbers *)

Definition float_lit (z : Z) : PrimFloat.float :=
  if (z <? 0)%Z then PrimFloat.opp (PrimFloat.of_uint63 (Uint63.of_Z (- z)))
  else PrimFloat.of_uint63 (Uint63.of_Z z).

#[export] Instance float_JSNumber : JSNumber PrimFloat.float := {
  lit := float_lit;
  Infinity := PrimFloat.infinity;
  neg := PrimFloat.opp;
  add := PrimFloat.add;
  sub := PrimFloat.sub;
  mul := PrimFloat.mul;
  div := PrimFloat.div;
  lt := PrimFloat.ltb;
  strictEq := PrimFloat.eqb;
  Math_abs := PrimFloat.abs;
  Math_sqrt := PrimFloat.sqrt
}.

(** ** physics.ts *)

Inductive MirrorType : Type := PLANE | CONCAVE | CONVEX.

Definition MirrorType_eqb (a b : MirrorType) : bool :=
  match a, b with
  | PLANE, PLANE | CONCAVE, CONCAVE | CONVEX, CONVEX => true
  | _, _ => false
  end.

Record Point (num : Type) : Type := mkPoint {
  x : num;
  y : num
}.

Record SimulationState (num : Type) : Type := mkState {
  mirrorType : MirrorType;
  focalLength : num;     (* Positive for concave, negative for convex *)
  objectDistance : num;  (* Always positive (left of mirror) *)
  objectHeight : num
}.

(** The object [calculateImage] returns. *)
Record ImageResult (num : Type) : Type := mkImage {
  imageDistance : num;
  imageHeight : num;
  magnification : num;
  isReal : bool
}.

Section Physics.
Context {num : Type} `{JSNumber num}.
Local Open Scope js_scope.

Definition calculateImageDistance (objDist f : num) : num :=
  if objDist === f then Infinity
  else (objDist * f) / (objDist - f).

Definition calculateObjectDistance (di f : num) : num :=
  if di === f then Infinity
  else (di * f) / (di - f).

Definition calculateImage (state : SimulationState num) : ImageResult num :=
  let '(mkState mirrorType focalLength objectDistance objectHeight) := state in
  match mirrorType with
  | PLANE =>
      {| imageDistance := - objectDistance;
         imageHeight := objectHeight;
         magnification := lit 1;
         isReal := false |}
  | _ =>
      let di := calculateImageDistance objectDistance focalLength in
      let magnification := (- di) / objectDistance in
      let imageHeight := magnification * objectHeight in
      {| imageDistance := di;
         imageHeight := imageHeight;
         magnification := magnification;
         isReal := di > lit 0 |}
  end.

End Physics.

(** ** The 2D canvas

    The drawing code talks to a [CanvasRenderingContext2D]; its effect is the
    sequence of calls and property assignments it issues, in order. *)

Inductive CanvasOp (num : Type) : Type :=
| clearRect (x y w h : num)
| beginPath
| closePath
| stroke
| fill
| setLineDash (segments : list num)
| set_lineWidth (w : num)
| set_strokeStyle (style : string)
| set_fillStyle (style : string)
| moveTo (x y : num)
| lineTo (x y : num)
| arc (x y radius startAngle endAngle : num)
| fillText (text : string) (x y : num).

Arguments beginPath {num}.
Arguments closePath {num}.
Arguments stroke {num}.
Arguments fill {num}.
Arguments set_strokeStyle {num} style.
Arguments set_fillStyle {num} style.
Arguments fillText {num} text x y.

(** The [<canvas>] element, as far as the effect reads it. *)
Record Canvas (num : Type) : Type := mkCanvas {
  width : num;
  height : num
}.

(** The arguments of one [drawRay] call (the context apart). *)
Module DrawRay.
Record call (num : Type) : Type := mk {
  x1 : num; y1 : num;
  mx : num; my : num;
  rx : num; ry : num;
  color : string;
  showVirtual : bool;
  vx : num; vy : num
}.
End DrawRay.

(** ** App.tsx *)

Module App.
Section Component.
Context {num : Type} `{JSNumber num}.
Local Open Scope js_scope.
Local Open Scope string_scope.

(** The four [useState] cells, held in one record. *)
Variable state : SimulationState num.

Definition setObjectDistance (v : num) : SimulationState num :=
  {| mirrorType := mirrorType state;
     focalLength := focalLength state;
     objectDistance := v;
     objectHeight := objectHeight state |}.

Definition image : ImageResult num := calculateImage state.

(** The state after the handler has run. *)
Definition handleImageDistanceChange (di : num) : SimulationState num :=
  match mirrorType state with
  | PLANE => setObjectDistance (Math_abs di)
  | _ =>
      let newDo := calculateObjectDistance di (focalLength state) in
      if (newDo > lit 0) && (newDo < lit 1000) then setObjectDistance newDo
      else state
  end.

(** *** The drawing effect *)

Variable canvas : Canvas num.

Definition centerX : num := width canvas / lit 2 - lit 100.
Definition centerY : num := height canvas / lit 2.

Definition R : num := lit 2 * focalLength state.
Definition absR : num := Math_abs R.
Definition Cx : num := centerX - R.
Definition Cy : num := centerY.

(** Helper: Line-Circle Intersection *)
Definition getIntersection (x1 y1 x2 y2 : num) : Point num :=
  match mirrorType state with
  | PLANE =>
      {| x := centerX; y := y1 + (centerX - x1) * (y2 - y1) / (x2 - x1) |}
  | _ =>
      let dx := x2 - x1 in
      let dy := y2 - y1 in
      let A := dx * dx + dy * dy in
      let B := lit 2 * (dx * (x1 - Cx) + dy * (y1 - Cy)) in
      let C := (x1 - Cx) * (x1 - Cx) + (y1 - Cy) * (y1 - Cy) - absR * absR in
      let det := B * B - lit 4 * A * C in
      if det < lit 0 then {| x := centerX; y := centerY |} (* Fallback *)
      else
        let t1 := (- B + Math_sqrt det) / (lit 2 * A) in
        let t2 := (- B - Math_sqrt det) / (lit 2 * A) in
        (* We want the intersection point closest to centerX *)
        let p1 := {| x := x1 + t1 * dx; y := y1 + t1 * dy |} in
        let p2 := {| x := x1 + t2 * dx; y := y1 + t2 * dy |} in
        if Math_abs (x p1 - centerX) < Math_abs (x p2 - centerX) then p1 else p2
  end.

Definition objX : num := centerX - objectDistance state.
Definition objY : num := centerY - objectHeight state.

Definition imgTipX : num := centerX - imageDistance image.

(** [let imgTipY = centerY - image.imageHeight], then the override for
    non-plane mirrors by the ray through F. *)
Definition imgTipY : num :=
  let imgTipY := centerY - imageHeight image in
  match mirrorType state with
  | PLANE => imgTipY
  | _ =>
      let fX := centerX - focalLength state in
      let m2 := getIntersection objX objY fX centerY in
      y m2
  end.

Definition drawRay (x1 y1 mx my rx ry : num) (color : string)
    (showVirtual : bool) (vx vy : num) : list (CanvasOp num) :=
  [ set_strokeStyle color;
    (* Incident ray *)
    beginPath; moveTo x1 y1; lineTo mx my; stroke;
    (* Reflected ray *)
    beginPath; moveTo mx my; lineTo rx ry; stroke ]
  ++ (if showVirtual then
        [ setLineDash [lit 2; lit 4];
          (* Virtual extension behind the mirror *)
          beginPath; moveTo mx my; lineTo vx vy; stroke;
          setLineDash [] ]
      else []).

Definition drawRayCall (r : DrawRay.call num) : list (CanvasOp num) :=
  drawRay (DrawRay.x1 r) (DrawRay.y1 r) (DrawRay.mx r) (DrawRay.my r) (DrawRay.rx r) (DrawRay.ry r)
    (DrawRay.color r) (DrawRay.showVirtual r) (DrawRay.vx r) (DrawRay.vy r).

Context `{JSMath num}.

Definition drawArrow (x1 y1 x2 y2 : num) (color label : string)
    : list (CanvasOp num) :=
  let angle := Math_atan2 (y2 - y1) (x2 - x1) in
  [ set_strokeStyle color; set_fillStyle color;
    beginPath; moveTo x1 y1; lineTo x2 y2; stroke;
    beginPath; moveTo x2 y2;
    lineTo (x2 - lit 10 * Math_cos (angle - Math_PI / lit 6))
           (y2 - lit 10 * Math_sin (angle - Math_PI / lit 6));
    lineTo (x2 - lit 10 * Math_cos (angle + Math_PI / lit 6))
           (y2 - lit 10 * Math_sin (angle + Math_PI / lit 6));
    closePath; fill;
    fillText label (x2 - lit 20) (y2 - lit 10) ].

(** Optical Axis *)
Definition drawAxis : list (CanvasOp num) :=
  [ beginPath; setLineDash [lit 5; lit 5]; set_strokeStyle "#94a3b8";
    moveTo (lit 0) centerY; lineTo (width canvas) centerY; stroke;
    setLineDash [] ].

(** Draw Mirror, then the F and C markers of a curved mirror. *)
Definition drawMirror : list (CanvasOp num) :=
  [ set_lineWidth (lit 4); set_strokeStyle "#1e293b"; beginPath ]
  ++ match mirrorType state with
     | PLANE =>
         [ moveTo centerX (centerY - lit 150);
           lineTo centerX (centerY + lit 150) ]
     | _ =>
         let angle := Math_asin (Math_min (lit 1) (lit 150 / absR)) in
         let concave := MirrorType_eqb (mirrorType state) CONCAVE in
         let startAngle := if concave then - angle else Math_PI - angle in
         let endAngle := if concave then angle else Math_PI + angle in
         [ arc Cx Cy absR startAngle endAngle ]
     end
  ++ [ stroke ].

Definition drawMarkers : list (CanvasOp num) :=
  match mirrorType state with
  | PLANE => []
  | _ =>
      let fX := centerX - focalLength state in
      let cX := centerX - lit 2 * focalLength state in
      [ set_fillStyle "#ef4444";
        beginPath; arc fX centerY (lit 4) (lit 0) (Math_PI * lit 2); fill;
        fillText "F" (fX - lit 5) (centerY + lit 20);
        set_fillStyle "#3b82f6";
        beginPath; arc cX centerY (lit 4) (lit 0) (Math_PI * lit 2); fill;
        fillText "C" (cX - lit 5) (centerY + lit 20) ]
  end.

Definition drawObject : list (CanvasOp num) :=
  drawArrow objX centerY objX objY "#10b981" "Object".

Definition drawImage : list (CanvasOp num) :=
  if Math_abs (imageDistance image) < lit 2000 then
    let imgX := centerX - imageDistance image in
    let color := if isReal image then "#f59e0b" else "#f59e0b99" in
    [ setLineDash (if isReal image then [] else [lit 5; lit 5]) ]
    ++ drawArrow imgX centerY imgX imgTipY color
         (if isReal image then "Real Image" else "Virtual Image")
    ++ [ setLineDash [] ]
  else [].

(** Rays: the [drawRay] calls of the effect, in order. *)
Definition rays : list (DrawRay.call num) :=
  match mirrorType state with
  | PLANE =>
      let angle := Math_atan2 (objY - centerY) (objX - centerX) in
      [ DrawRay.mk objX objY centerX objY (- lit 500) objY "#6366f1" true
          imgTipX objY;
        DrawRay.mk objX objY centerX centerY (centerX - lit 500)
          (centerY + lit 500 * Math_tan (- angle)) "#6366f1" true
          imgTipX imgTipY ]
  | _ =>
      (* Ray 1: Parallel *)
      let m1 := getIntersection objX objY (centerX + lit 100) objY in
      let fPoint := {| x := centerX - focalLength state; y := centerY |} in
      let angle1 := Math_atan2 (y fPoint - y m1) (x fPoint - x m1) in
      (* For Convex, fPoint is to the right, so reflect away from it *)
      let angle1 :=
        if MirrorType_eqb (mirrorType state) CONVEX
        then Math_atan2 (y m1 - y fPoint) (x m1 - x fPoint)
        else angle1 in
      let rx1 := x m1 + lit 1000 * Math_cos angle1 in
      let ry1 := y m1 + lit 1000 * Math_sin angle1 in
      (* Ray 2: Through F *)
      let fX := centerX - focalLength state in
      let m2 := getIntersection objX objY fX centerY in
      (* Ray 3: Through C *)
      let cX := centerX - lit 2 * focalLength state in
      let m3 := getIntersection objX objY cX centerY in
      let angle3 := Math_atan2 (y m3 - centerY) (x m3 - cX) in
      let rx3 := x m3 + lit 1000 * Math_cos angle3 in
      let ry3 := y m3 + lit 1000 * Math_sin angle3 in
      (* If rx3 is to the right, invert it to go left *)
      let finalRx3 :=
        if rx3 > x m3 then x m3 - lit 1000 * Math_cos angle3 else rx3 in
      let finalRy3 :=
        if rx3 > x m3 then y m3 - lit 1000 * Math_sin angle3 else ry3 in
      [ DrawRay.mk objX objY (x m1) (y m1) rx1 ry1 "#6366f1"
          (negb (isReal image)) imgTipX imgTipY;
        DrawRay.mk objX objY (x m2) (y m2) (x m2 - lit 1000) (y m2) "#8b5cf6"
          (negb (isReal image)) imgTipX imgTipY;
        DrawRay.mk objX objY (x m3) (y m3) finalRx3 finalRy3 "#ec4899"
          (negb (isReal image)) imgTipX imgTipY ]
  end.

Definition drawRays : list (CanvasOp num) := flat_map drawRayCall rays.

(** Everything the effect draws on one run. *)
Definition effect : list (CanvasOp num) :=
  [ clearRect (lit 0) (lit 0) (width canvas) (height canvas) ]
  ++ drawAxis ++ drawMirror ++ drawMarkers ++ drawObject ++ drawImage
  ++ drawRays.

End Component.
End App.

(** ** The [Math] functions on idealised numbers

    Exact real functions on finite arguments; infinite arguments as
    ECMAScript prescribes (zero is unsigned and counts as [+0]). *)

Module IdealMath.

Definition min (a b : number) : number :=
  match a, b with
  | NaN, _ | _, NaN => NaN
  | _, _ => if Ideal.lt a b then a else b
  end.

Definition asin (a : number) : number :=
  match a with
  | Fin r =>
      if Rlt_dec r (-1) then NaN
      else if Rlt_dec 1 r then NaN
      else Fin (Ratan.asin r)
  | _ => NaN
  end.

Definition atan2 (b a : number) : number :=
  match b, a with
  | NaN, _ | _, NaN => NaN
  | Fin s, Fin r =>
      match total_order_T 0 r with
      | inleft (left _) => Fin (atan (s / r))
      | inleft (right _) =>
          match total_order_T 0 s with
          | inleft (left _) => Fin (PI / 2)
          | inleft (right _) => Fin 0
          | inright _ => Fin (- (PI / 2))
          end
      | inright _ =>
          if Rlt_dec s 0 then Fin (atan (s / r) - PI)
          else Fin (atan (s / r) + PI)
      end
  | Fin _, PInf => Fin 0
  | Fin s, NInf => if Rlt_dec s 0 then Fin (- PI) else Fin PI
  | PInf, Fin _ => Fin (PI / 2)
  | NInf, Fin _ => Fin (- (PI / 2))
  | PInf, PInf => Fin (PI / 4)
  | PInf, NInf => Fin (3 * PI / 4)
  | NInf, PInf => Fin (- (PI / 4))
  | NInf, NInf => Fin (- (3 * PI / 4))
  end.

Definition cos (a : number) : number :=
  match a with
  | Fin r => Fin (Rtrigo_def.cos r)
  | _ => NaN
  end.

Definition sin (a : number) : number :=
  match a with
  | Fin r => Fin (Rtrigo_def.sin r)
  | _ => NaN
  end.

Definition tan (a : number) : number := Ideal.div (sin a) (cos a).

End IdealMath.

#[export] Instance number_JSMath : JSMath number := {
  Math_PI := Fin PI;
  Math_min := IdealMath.min;
  Math_asin := IdealMath.asin;
  Math_atan2 := IdealMath.atan2;
  Math_cos := IdealMath.cos;
  Math_sin := IdealMath.sin;
  Math_tan := IdealMath.tan
}.

(** The canvas element of the page: [<canvas width={800} height={500}>]. *)
Definition pageCanvas {num : Type} `{JSNumber num} : Canvas num :=
  {| width := lit 800; height := lit 500 |}.

(** ** The curved branch of [getIntersection] over the reals

    The same computation on real numbers, for a circle of centre [(cx, cy)]
    and radius [r] and a vertex [(vx, vy)]: the reading of the curved branch
    that the geometry below is about.  [getIntersection_curved] relates the
    program to it. *)

Definition intersectR (vx vy cx cy r x1 y1 x2 y2 : R) : Point R :=
  (let dx := x2 - x1 in
   let dy := y2 - y1 in
   let A := dx * dx + dy * dy in
   let B := 2 * (dx * (x1 - cx) + dy * (y1 - cy)) in
   let C := (x1 - cx) * (x1 - cx) + (y1 - cy) * (y1 - cy) - r * r in
   let det := B * B - 4 * A * C in
   if Rlt_dec det 0 then {| x := vx; y := vy |}
   else
     let t1 := (- B + sqrt det) / (2 * A) in
     let t2 := (- B - sqrt det) / (2 * A) in
     let p1 := {| x := x1 + t1 * dx; y := y1 + t1 * dy |} in
     let p2 := {| x := x1 + t2 * dx; y := y1 + t2 * dy |} in
     if Rlt_dec (Rabs (x p1 - vx)) (Rabs (x p2 - vx)) then p1 else p2)%R.

(** ** App.tsx: the controls of the page

    The inline handlers of the JSX, each as the state it leaves.  A range
    input hands its handler [parseInt(e.target.value)], an integer between
    the [min] and [max] of the element. *)

Module Controls.
Section Handlers.
Context {num : Type} `{JSNumber num}.
Local Open Scope js_scope.

(** The [useState] defaults. *)
Definition initialState : SimulationState num :=
  {| mirrorType := CONCAVE;
     focalLength := lit 100;
     objectDistance := lit 200;
     objectHeight := lit 50 |}.

Variable state : SimulationState num.

(** The Reset button. *)
Definition onResetClick : SimulationState num :=
  {| mirrorType := CONCAVE;
     focalLength := lit 100;
     objectDistance := lit 200;
     objectHeight := objectHeight state |}.

(** A Mirror Type button: the type is set, and the focal length is given
    the sign the type wants when it has the other one. *)
Definition onMirrorTypeClick (type : MirrorType) : SimulationState num :=
  let focalLength1 :=
    if MirrorType_eqb type CONVEX && (focalLength state > lit 0)
    then - lit 100 else focalLength state in
  let focalLength2 :=
    if MirrorType_eqb type CONCAVE && (focalLength state < lit 0)
    then lit 100 else focalLength1 in
  {| mirrorType := type;
     focalLength := focalLength2;
     objectDistance := objectDistance state;
     objectHeight := objectHeight state |}.

Definition onFocalLengthChange (value : Z) : SimulationState num :=
  {| mirrorType := mirrorType state;
     focalLength := lit value;
     objectDistance := objectDistance state;
     objectHeight := objectHeight state |}.

Definition onObjectDistanceChange (value : Z) : SimulationState num :=
  App.setObjectDistance state (lit value).

Definition onImageDistanceChange (value : Z) : SimulationState num :=
  App.handleImageDistanceChange state (lit value).

Definition onObjectHeightChange (value : Z) : SimulationState num :=
  {| mirrorType := mirrorType state;
     focalLength := focalLength state;
     objectDistance := objectDistance state;
     objectHeight := lit value |}.

(** The [value] attribute of the Image Distance slider. *)
Definition imageDistanceSliderValue : num :=
  if Math_abs (imageDistance (App.image state)) > lit 1000 then lit 0
  else imageDistance (App.image state).

End Handlers.

(** What the user can do to the page. *)
Inductive Event : Type :=
| ResetClick
| MirrorTypeClick (type : MirrorType)
| FocalLengthChange (value : Z)
| ObjectDistanceChange (value : Z)
| ImageDistanceChange (value : Z)
| ObjectHeightChange (value : Z).

Section Page.
Context {num : Type} `{JSNumber num}.

Definition handle (state : SimulationState num) (e : Event)
    : SimulationState num :=
  match e with
  | ResetClick => onResetClick state
  | MirrorTypeClick type => onMirrorTypeClick state type
  | FocalLengthChange value => onFocalLengthChange state value
  | ObjectDistanceChange value => onObjectDistanceChange state value
  | ImageDistanceChange value => onImageDistanceChange state value
  | ObjectHeightChange value => onObjectHeightChange state value
  end.

(** The events the elements can raise in a state: the [min], [max] and
    [disabled] attributes of the range inputs. *)
Definition offered (state : SimulationState num) (e : Event) : bool :=
  match e with
  | ResetClick | MirrorTypeClick _ => true
  | FocalLengthChange value =>
      match mirrorType state with
      | PLANE => false
      | CONVEX => ((-300 <=? value) && (value <=? -50))%Z
      | CONCAVE => ((50 <=? value) && (value <=? 300))%Z
      end
  | ObjectDistanceChange value => ((10 <=? value) && (value <=? 600))%Z
  | ImageDistanceChange value => ((-600 <=? value) && (value <=? 600))%Z
  | ObjectHeightChange value => ((10 <=? value) && (value <=? 150))%Z
  end.

(** The state after a session, and whether each event was on offer when it
    came. *)
Fixpoint session (state : SimulationState num) (events : list Event)
    : SimulationState num :=
  match events with
  | [] => state
  | e :: rest => session (handle state e) rest
  end.

Fixpoint offeredAll (state : SimulationState num) (events : list Event)
    : bool :=
  match events with
  | [] => true
  | e :: rest => offered state e && offeredAll (handle state e) rest
  end.

End Page.
End Controls.

(** The states the controls keep the page in: finite values, a focal length
    of magnitude 50 to 300 with the sign of the mirror type, an object
    distance in [[0, 1000)] and an object height in [[10, 150]]. *)
Definition inRange (state : SimulationState number) : Prop :=
  exists f d h : R,
    state = mkState (mirrorType state) (Fin f) (Fin d) (Fin h)
    /\ match mirrorType state with
       | CONCAVE => 50 <= f <= 300
       | CONVEX => -300 <= f <= -50
       | PLANE => 50 <= f <= 300 \/ -300 <= f <= -50
       end%R
    /\ (0 <= d < 1000)%R
    /\ (10 <= h <= 150)%R.

(** ** The line dash of the canvas

    The dash pattern the context is left with by a sequence of commands:
    the argument of the last [setLineDash], if any. *)
Definition lineDashAfter {num : Type} (ops : list (CanvasOp num))
    (dash : list num) : list num :=
  fold_left
    (fun current op =>
       match op with
       | setLineDash segments => segments
       | _ => current
       end)
    ops dash.

(** * Properties *)

(** ** Arithmetic of idealised numbers *)

Ltac real_cases :=
  repeat match goal with
    | |- context [Req_dec_T ?a ?b] => destruct (Req_dec_T a b)
    | |- context [Rlt_dec ?a ?b] => destruct (Rlt_dec a b)
    | |- context [total_order_T ?a ?b] => destruct (total_order_T a b) as [[|]|]
    end;
  try lra.

Section IdealArithmetic.
Local Open Scope R_scope.

Lemma div_Fin (a b : R) : b <> 0 -> Ideal.div (Fin a) (Fin b) = Fin (a / b).
Proof. intros Hb. unfold Ideal.div. now destruct (Req_dec_T b 0). Qed.

Lemma div_Fin_zero (a : R) :
  Ideal.div (Fin a) (Fin 0) = Ideal.inf_signed true a.
Proof. unfold Ideal.div. now destruct (Req_dec_T 0 0). Qed.

Lemma strictEq_Fin_false (a b : R) :
  a <> b -> Ideal.strictEq (Fin a) (Fin b) = false.
Proof. intros. unfold Ideal.strictEq. now destruct (Req_dec_T a b). Qed.

Lemma strictEq_Fin_refl (a : R) : Ideal.strictEq (Fin a) (Fin a) = true.
Proof. unfold Ideal.strictEq. now destruct (Req_dec_T a a). Qed.

Lemma sqrt_Fin (a : R) : 0 <= a -> Ideal.sqrt (Fin a) = Fin (sqrt a).
Proof. intros. unfold Ideal.sqrt. destruct (Rlt_dec a 0); [lra | easy]. Qed.

(** [<] is irreflexive and asymmetric, [NaN] and infinities included. *)
Lemma lt_irrefl (a : number) : Ideal.lt a a = false.
Proof. destruct a; simpl; trivial. real_cases. Qed.

Lemma lt_asym (a b : number) : Ideal.lt a b = true -> Ideal.lt b a = false.
Proof. destruct a, b; simpl; trivial; try discriminate. real_cases. Qed.

(** [===] holds only between equal values, and never for [NaN]. *)
Lemma strictEq_eq (a b : number) : Ideal.strictEq a b = true -> a = b.
Proof.
  destruct a, b; simpl; try discriminate; trivial.
  destruct (Req_dec_T r r0); [now subst | discriminate].
Qed.

Lemma strictEq_not_NaN (a b : number) :
  Ideal.strictEq a b = true -> a <> NaN.
Proof. destruct a, b; simpl; discriminate. Qed.

(** The forward solve on finite arguments that differ is the quotient. *)
Lemma calculateImageDistance_Fin (d f : R) :
  d <> f -> calculateImageDistance (Fin d) (Fin f) = Fin (d * f / (d - f)).
Proof.
  intros Hdf. unfold calculateImageDistance. simpl. real_cases.
  now replace (d + - f) with (d - f) by lra.
Qed.

Lemma calculateObjectDistance_Fin (d f : R) :
  d <> f -> calculateObjectDistance (Fin d) (Fin f) = Fin (d * f / (d - f)).
Proof.
  intros Hdf. unfold calculateObjectDistance. simpl. real_cases.
  now replace (d + - f) with (d - f) by lra.
Qed.

Lemma image_distance_nonzero (d f : R) :
  d <> f -> d <> 0 -> f <> 0 -> d * f / (d - f) <> 0.
Proof.
  intros Hdf Hd Hf. unfold Rdiv.
  apply Rmult_integral_contrapositive_currified.
  - now apply Rmult_integral_contrapositive_currified.
  - apply Rinv_neq_0_compat. lra.
Qed.

End IdealArithmetic.

(** ** The optics solver *)

Section Solver.
Local Open Scope R_scope.

(** C1.  For finite [d] (object distance) and [f] (focal length) with
    [d <> f], both nonzero, the forward solve returns a finite nonzero
    image distance [di] that satisfies the mirror equation
    [1/d + 1/di = 1/f] exactly, in the reals and in the arithmetic of the
    program. *)
Theorem mirror_equation (d f : R) :
  d <> f -> d <> 0 -> f <> 0 ->
  exists di : R,
    calculateImageDistance (Fin d) (Fin f) = Fin di /\
    di <> 0 /\
    1 / d + 1 / di = 1 / f /\
    (lit 1 / Fin d + lit 1 / Fin di)%js = (lit 1 / Fin f)%js.
Proof.
  intros Hdf Hd Hf.
  pose proof (image_distance_nonzero Hdf Hd Hf) as Hdi.
  exists (d * f / (d - f)). repeat split.
  - now apply calculateImageDistance_Fin.
  - assumption.
  - field. repeat split; lra.
  - simpl. real_cases. simpl. f_equal. field. repeat split; lra.
Qed.

Lemma mirror_equation_witness :
  200 <> 100 /\ 200 <> 0 /\ 100 <> 0 /\
  exists di : R,
    calculateImageDistance (Fin 200) (Fin 100) = Fin di /\
    di <> 0 /\
    1 / 200 + 1 / di = 1 / 100 /\
    (lit 1 / Fin 200 + lit 1 / Fin di)%js = (lit 1 / Fin 100)%js.
Proof.
  repeat (split; [lra |]). apply (@mirror_equation 200 100); lra.
Defined.

(** On rational arguments the image distance is the rational
    [qd * qf / (qd - qf)], and the mirror equation holds in [Q]. *)
Lemma rational_image_distance (qd qf : Q) :
  ~ (qd == qf)%Q -> ~ (qd == 0)%Q -> ~ (qf == 0)%Q ->
  let qi := (qd * qf / (qd - qf))%Q in
  calculateImageDistance (Fin (Q2R qd)) (Fin (Q2R qf)) = Fin (Q2R qi) /\
  ~ (qi == 0)%Q /\
  (1 / qd + 1 / qi == 1 / qf)%Q.
Proof.
  intros Hdf Hd Hf qi.
  assert (Hsub : ~ (qd - qf == 0)%Q).
  { intros E. apply Hdf. rewrite <- (Qplus_0_l qf), <- E. ring. }
  assert (Hqi : ~ (qi == 0)%Q).
  { unfold qi. intros E. apply Qmult_integral in E as [E | E].
    - apply Qmult_integral in E as [E | E]; contradiction.
    - apply Hsub. rewrite <- (Qinv_involutive (qd - qf)), E. reflexivity. }
  repeat split; trivial.
  - rewrite calculateImageDistance_Fin.
    + unfold qi. now rewrite Q2R_div, Q2R_mult, Q2R_minus.
    + intros E. apply Hdf. now apply eqR_Qeq.
  - unfold qi. field. repeat split; trivial.
Qed.

(** C2 fails at the focal length 0: the forward solve of [(1, 0)] is [0],
    which the inverse solve takes for the degenerate case [di === f]. *)
Lemma zero_focal_length_breaks_inversion :
  Fin 1 <> Fin 0 /\
  calculateImageDistance (Fin 1) (Fin 0) = Fin 0 /\
  calculateObjectDistance (calculateImageDistance (Fin 1) (Fin 0)) (Fin 0)
    = PInf /\
  calculateObjectDistance (calculateImageDistance (Fin 1) (Fin 0)) (Fin 0)
    <> Fin 1.
Proof.
  assert (E : calculateImageDistance (Fin 1) (Fin 0) = Fin 0).
  { rewrite calculateImageDistance_Fin by lra. f_equal. field. }
  rewrite E. unfold calculateObjectDistance. simpl.
  destruct (Req_dec_T 0 0); [|lra].
  repeat split; try discriminate. intros F. injection F. lra.
Qed.

(** C2, amended.  For finite [d] and [f] with [d <> f] and [f <> 0], the
    inverse solve undoes the forward solve. *)
Theorem round_trip (d f : R) :
  d <> f -> f <> 0 ->
  calculateObjectDistance (calculateImageDistance (Fin d) (Fin f)) (Fin f)
    = Fin d.
Proof.
  intros Hdf Hf.
  rewrite calculateImageDistance_Fin by assumption.
  assert (Hne : d * f / (d - f) <> f).
  { intros E. apply Hf.
    assert (E' : d * f = f * (d - f)).
    { rewrite <- E at 2. field. lra. }
    assert (f * f = 0) by lra.
    destruct (Rmult_integral _ _ H); assumption. }
  rewrite calculateObjectDistance_Fin by assumption.
  f_equal. field. split; [lra |].
  intros E. assert (Hff : f * f = 0) by lra.
  destruct (Rmult_integral _ _ Hff); contradiction.
Qed.

Lemma round_trip_witness :
  50 <> 100 /\ 100 <> 0 /\
  calculateObjectDistance (calculateImageDistance (Fin 50) (Fin 100))
    (Fin 100) = Fin 50.
Proof.
  repeat (split; [lra |]). apply (@round_trip 50 100); lra.
Defined.

End Solver.

Section SolverCases.
Local Open Scope js_scope.

(** C3.  For a plane mirror [calculateImage] returns the image distance
    [-objectDistance], the image height [objectHeight], the magnification
    [1] and [isReal = false], whatever the object distance is (positive
    ones included), and the focal length plays no part. *)
Theorem plane_mirror_image (num : Type) (N : JSNumber num)
    (focalLength objectDistance objectHeight : num) :
  calculateImage (mkState PLANE focalLength objectDistance objectHeight)
    = {| imageDistance := - objectDistance;
         imageHeight := objectHeight;
         magnification := lit 1;
         isReal := false |}
  /\ forall focalLength' : num,
       calculateImage (mkState PLANE focalLength' objectDistance objectHeight)
       = calculateImage (mkState PLANE focalLength objectDistance objectHeight).
Proof. split; reflexivity. Qed.

(** C4.  When the object distance equals the focal length ([do === f]
    holds), [calculateImageDistance] returns the sentinel [Infinity] and
    no quotient: its absolute value exceeds every finite threshold, it is
    not [NaN], and [calculateImage] for a curved mirror reports that same
    infinite image distance. *)
Theorem image_at_infinity (objDist f : number) :
  (objDist === f) = true ->
  calculateImageDistance objDist f = Infinity
  /\ (forall threshold : R,
        (Math_abs (calculateImageDistance objDist f) > Fin threshold) = true)
  /\ calculateImageDistance objDist f <> NaN
  /\ (forall (kind : MirrorType) (objectHeight : number),
        kind <> PLANE ->
        imageDistance (calculateImage (mkState kind f objDist objectHeight))
        = Infinity).
Proof.
  intros Heq.
  assert (E : calculateImageDistance objDist f = Infinity).
  { unfold calculateImageDistance. now rewrite Heq. }
  rewrite E. repeat split; try discriminate.
  intros kind h Hk. destruct kind; [contradiction | |]; simpl;
    unfold calculateImageDistance; now rewrite Heq.
Qed.

Lemma image_at_infinity_witness :
  (Fin 100 === Fin 100) = true
  /\ calculateImageDistance (Fin 100) (Fin 100) = Infinity
  /\ (forall threshold : R,
        (Math_abs (calculateImageDistance (Fin 100) (Fin 100))
         > Fin threshold) = true)
  /\ calculateImageDistance (Fin 100) (Fin 100) <> NaN
  /\ (forall (kind : MirrorType) (objectHeight : number),
        kind <> PLANE ->
        imageDistance
          (calculateImage (mkState kind (Fin 100) (Fin 100) objectHeight))
        = Infinity).
Proof.
  split; [apply strictEq_Fin_refl |].
  apply (@image_at_infinity (Fin 100) (Fin 100)). apply strictEq_Fin_refl.
Defined.

(** Every finite focal length meets the hypothesis of C4 at [do = f]. *)
Lemma sentinel_at_finite_focus (f : R) :
  calculateImageDistance (Fin f) (Fin f) = Infinity.
Proof.
  unfold calculateImageDistance.
  change (Fin f === Fin f) with (Ideal.strictEq (Fin f) (Fin f)).
  now rewrite strictEq_Fin_refl.
Qed.

(** What the guard avoids: at [do = f = 0] the quotient itself is [NaN]. *)
Lemma unguarded_quotient_at_zero :
  (Fin 0 * Fin 0) / (Fin 0 - Fin 0) = NaN.
Proof. simpl. real_cases. unfold Ideal.inf_signed. real_cases. reflexivity. Qed.

(** C10.  The forward and the inverse solver are the same function. *)
Theorem solvers_agree (num : Type) (N : JSNumber num) (a f : num) :
  calculateImageDistance a f = calculateObjectDistance a f.
Proof. reflexivity. Qed.

(** C9.  For a non-plane mirror the handler leaves the state, and so the
    object distance, as it was whenever the new object distance
    [calculateObjectDistance di focalLength] fails the test
    [newDo > 0 && newDo < 1000]. *)
Theorem inverse_drive_rejects (num : Type) (N : JSNumber num)
    (state : SimulationState num) (di : num) :
  mirrorType state <> PLANE ->
  let newDo := calculateObjectDistance di (focalLength state) in
  (newDo > lit 0) && (newDo < lit 1000) = false ->
  App.handleImageDistanceChange state di = state
  /\ objectDistance (App.handleImageDistanceChange state di)
     = objectDistance state.
Proof.
  intros Hk newDo Hout.
  assert (E : App.handleImageDistanceChange state di = state).
  { unfold App.handleImageDistanceChange. fold newDo. rewrite Hout.
    destruct (mirrorType state); [contradiction | reflexivity | reflexivity]. }
  now rewrite E.
Qed.

End SolverCases.

(** ** Finite values through the program's operators *)

Section FinRewriting.
Local Open Scope js_scope.

Lemma lit_Fin (z : Z) : lit z = Fin (IZR z).
Proof. reflexivity. Qed.

Lemma neg_Fin (a : R) : - Fin a = Fin (- a)%R.
Proof. reflexivity. Qed.

Lemma add_Fin (a b : R) : Fin a + Fin b = Fin (a + b)%R.
Proof. reflexivity. Qed.

Lemma sub_Fin (a b : R) : Fin a - Fin b = Fin (a - b)%R.
Proof. reflexivity. Qed.

Lemma mul_Fin (a b : R) : Fin a * Fin b = Fin (a * b)%R.
Proof. reflexivity. Qed.

Lemma abs_Fin (a : R) : Math_abs (Fin a) = Fin (Rabs a).
Proof. reflexivity. Qed.

Lemma less_Fin (a b : R) :
  (Fin a < Fin b) = if Rlt_dec a b then true else false.
Proof. reflexivity. Qed.

Lemma quot_Fin (a b : R) : b <> 0%R -> Fin a / Fin b = Fin (a / b)%R.
Proof. apply div_Fin. Qed.

Lemma quot_zero_zero (a b : R) : a = 0%R -> b = 0%R -> Fin a / Fin b = NaN.
Proof.
  intros -> ->. change (Ideal.div (Fin 0) (Fin 0) = NaN).
  rewrite div_Fin_zero. unfold Ideal.inf_signed. real_cases. reflexivity.
Qed.

Lemma root_Fin (a : R) : (0 <= a)%R -> Math_sqrt (Fin a) = Fin (sqrt a).
Proof. apply sqrt_Fin. Qed.

End FinRewriting.

Create Rewrite HintDb fin.
#[export] Hint Rewrite lit_Fin neg_Fin add_Fin sub_Fin mul_Fin abs_Fin less_Fin
  : fin.

(** ** The geometry of the effect on finite inputs *)

Section FiniteGeometry.
Local Open Scope R_scope.
Variables (W H f : R) (kind : MirrorType) (d h : number).

Let state := mkState kind (Fin f) d h.
Let canvas := mkCanvas (Fin W) (Fin H).

Lemma centerX_Fin : App.centerX canvas = Fin (W / 2 - 100).
Proof.
  unfold App.centerX. simpl width. autorewrite with fin.
  rewrite quot_Fin by lra. now autorewrite with fin.
Qed.

Lemma centerY_Fin : App.centerY canvas = Fin (H / 2).
Proof.
  unfold App.centerY. simpl height. autorewrite with fin.
  now rewrite quot_Fin by lra.
Qed.

Lemma absR_Fin : App.absR state = Fin (Rabs (2 * f)).
Proof. reflexivity. Qed.

Lemma Cx_Fin : App.Cx state canvas = Fin (W / 2 - 100 - 2 * f).
Proof.
  unfold App.Cx. rewrite centerX_Fin.
  change (App.R state) with (Fin (2 * f)). now autorewrite with fin.
Qed.

Lemma Cy_Fin : App.Cy canvas = Fin (H / 2).
Proof. apply centerY_Fin. Qed.

(** On a segment with distinct finite endpoints the curved branch computes
    what [intersectR] computes on the reals. *)
Lemma getIntersection_curved (x1 y1 x2 y2 : R) :
  kind <> PLANE ->
  (x2 - x1) * (x2 - x1) + (y2 - y1) * (y2 - y1) <> 0 ->
  App.getIntersection state canvas (Fin x1) (Fin y1) (Fin x2) (Fin y2)
  = let p := intersectR (W / 2 - 100) (H / 2) (W / 2 - 100 - 2 * f) (H / 2)
               (Rabs (2 * f)) x1 y1 x2 y2 in
    {| x := Fin (x p); y := Fin (y p) |}.
Proof.
  intros Hk HA. unfold App.getIntersection.
  replace (mirrorType state) with kind by reflexivity.
  rewrite Cx_Fin, Cy_Fin, absR_Fin, centerX_Fin, centerY_Fin.
  destruct kind; [contradiction | |];
    cbv zeta; autorewrite with fin; unfold intersectR; cbv zeta;
    (match goal with
     | |- context [Rlt_dec ?a 0] => destruct (Rlt_dec a 0) as [Hneg | Hpos]
     end; [reflexivity |]);
    rewrite root_Fin by lra; autorewrite with fin;
    rewrite !quot_Fin by lra; autorewrite with fin;
    cbn [x y]; autorewrite with fin;
    match goal with
    | |- context [Rlt_dec ?a ?b] => destruct (Rlt_dec a b)
    end; reflexivity.
Qed.

(** A segment reduced to one point has no direction: the quotient is [0/0]
    and both candidate points are [NaN]. *)
Lemma getIntersection_degenerate (x1 y1 : R) :
  kind <> PLANE ->
  App.getIntersection state canvas (Fin x1) (Fin y1) (Fin x1) (Fin y1)
  = {| x := NaN; y := NaN |}.
Proof.
  intros Hk. unfold App.getIntersection.
  replace (mirrorType state) with kind by reflexivity.
  rewrite Cx_Fin, Cy_Fin, absR_Fin, centerX_Fin, centerY_Fin.
  destruct kind; [contradiction | |];
    cbv zeta; autorewrite with fin;
    (match goal with
     | |- context [Rlt_dec ?a 0] => destruct (Rlt_dec a 0) as [Hneg | Hpos]
     end; [exfalso; lra |]);
    rewrite root_Fin by lra;
    match goal with
    | |- context [sqrt ?a] => replace a with 0 by lra
    end;
    rewrite sqrt_0; autorewrite with fin;
    rewrite !quot_zero_zero by lra; reflexivity.
Qed.

End FiniteGeometry.

(** ** The quadratic of the line-circle intersection, over the reals *)

Section Quadratic.
Local Open Scope R_scope.
Variables (A B C s : R).
Hypothesis (HA : A <> 0) (Hs : s * s = B * B - 4 * A * C).

Lemma quadratic_at_root (t : R) :
  t = (- B + s) / (2 * A) \/ t = (- B - s) / (2 * A) ->
  A * t * t + B * t + C = 0.
Proof.
  intros Ht.
  assert (E : A * t * t + B * t + C = (s * s - (B * B - 4 * A * C)) / (4 * A))
    by (destruct Ht; subst t; field; assumption).
  rewrite E, Hs. field. assumption.
Qed.

Lemma quadratic_roots_complete (t : R) :
  A * t * t + B * t + C = 0 ->
  t = (- B + s) / (2 * A) \/ t = (- B - s) / (2 * A).
Proof.
  intros Ht.
  assert (E : (2 * A * t + B - s) * (2 * A * t + B + s) = 0).
  { replace ((2 * A * t + B - s) * (2 * A * t + B + s))
      with (4 * A * (A * t * t + B * t + C) - (s * s - (B * B - 4 * A * C)))
      by ring.
    rewrite Ht, Hs. ring. }
  destruct (Rmult_integral _ _ E) as [E1 | E1]; [left | right];
    apply (Rmult_eq_reg_l (2 * A)); try lra;
    (field_simplify; [lra | assumption]).
Qed.

End Quadratic.

Section LineCircle.
Local Open Scope R_scope.
Variables (vx vy cx cy r x1 y1 x2 y2 : R).

Let dx := x2 - x1.
Let dy := y2 - y1.
Let A := dx * dx + dy * dy.
Let B := 2 * (dx * (x1 - cx) + dy * (y1 - cy)).
Let C := (x1 - cx) * (x1 - cx) + (y1 - cy) * (y1 - cy) - r * r.
Let det := B * B - 4 * A * C.

(** The point at parameter [t] is on the circle exactly when [t] solves the
    quadratic. *)
Lemma on_circle_iff_root (t : R) :
  (x1 + t * dx - cx) * (x1 + t * dx - cx)
  + (y1 + t * dy - cy) * (y1 + t * dy - cy) = r * r
  <-> A * t * t + B * t + C = 0.
Proof.
  assert (E : (x1 + t * dx - cx) * (x1 + t * dx - cx)
              + (y1 + t * dy - cy) * (y1 + t * dy - cy) - r * r
              = A * t * t + B * t + C) by (unfold A, B, C; ring).
  split; intros; lra.
Qed.

(** What [intersectR] returns when the discriminant is not negative: the
    point of a root of the quadratic, no further from the vertex abscissa
    than the point of any root. *)
Lemma intersectR_nearest_root :
  A <> 0 -> 0 <= det ->
  let p := intersectR vx vy cx cy r x1 y1 x2 y2 in
  (exists t : R,
      A * t * t + B * t + C = 0 /\ x p = x1 + t * dx /\ y p = y1 + t * dy)
  /\ forall t' : R,
       A * t' * t' + B * t' + C = 0 ->
       Rabs (x p - vx) <= Rabs (x1 + t' * dx - vx).
Proof.
  intros HA Hdet.
  assert (Hs : sqrt det * sqrt det = B * B - 4 * A * C)
    by (now apply sqrt_sqrt).
  unfold intersectR. cbv zeta. fold dx dy. fold A. fold B. fold C. fold det.
  destruct (Rlt_dec det 0) as [Hneg | _]; [lra |].
  set (t1 := (- B + sqrt det) / (2 * A)).
  set (t2 := (- B - sqrt det) / (2 * A)).
  cbn [x y].
  destruct (Rlt_dec (Rabs (x1 + t1 * dx - vx)) (Rabs (x1 + t2 * dx - vx)))
    as [Hlt | Hge]; cbn [x y]; split.
  - exists t1. repeat split. apply (quadratic_at_root HA Hs). now left.
  - intros t' Ht'.
    destruct (quadratic_roots_complete HA Hs Ht') as [-> | ->];
      fold t1 t2; lra.
  - exists t2. repeat split. apply (quadratic_at_root HA Hs). now right.
  - intros t' Ht'.
    destruct (quadratic_roots_complete HA Hs Ht') as [-> | ->];
      fold t1 t2; lra.
Qed.

(** Whatever branch is taken, the point lies on the circle, provided the
    vertex does and the segment has a direction. *)
Lemma intersectR_on_circle :
  A <> 0 ->
  (vx - cx) * (vx - cx) + (vy - cy) * (vy - cy) = r * r ->
  let p := intersectR vx vy cx cy r x1 y1 x2 y2 in
  (x p - cx) * (x p - cx) + (y p - cy) * (y p - cy) = r * r.
Proof.
  intros HA Hv p.
  destruct (Rlt_dec det 0) as [Hneg | Hpos].
  - unfold p, intersectR. cbv zeta. fold dx dy. fold A. fold B. fold C. fold det.
    destruct (Rlt_dec det 0); [assumption | contradiction].
  - destruct intersectR_nearest_root as [[t [Ht [Ex Ey]]] _]; [assumption | lra |].
    fold p in Ex, Ey. rewrite Ex, Ey. now apply on_circle_iff_root.
Qed.

End LineCircle.

(** ** Reflection points *)

Section ReflectionPoints.
Local Open Scope R_scope.

Lemma Rabs_square (a : R) : Rabs a * Rabs a = a * a.
Proof. unfold Rabs. destruct (Rcase_abs a); ring. Qed.

Lemma distinct_endpoints (x1 y1 x2 y2 : R) :
  (x1, y1) <> (x2, y2) ->
  (x2 - x1) * (x2 - x1) + (y2 - y1) * (y2 - y1) <> 0.
Proof.
  intros Hne E. apply Hne.
  destruct (Rplus_sqr_eq_0 (x2 - x1) (y2 - y1) E) as [Ex Ey].
  f_equal; lra.
Qed.

(** On a curved mirror, a segment with finite coordinates and a direction
    meets the arc's circle: the returned point is finite and at distance
    [|2f|] from the centre. *)
Lemma curved_intersection_on_arc (W H f x1 y1 x2 y2 : R) (kind : MirrorType)
    (d h : number) :
  kind <> PLANE ->
  (x2 - x1) * (x2 - x1) + (y2 - y1) * (y2 - y1) <> 0 ->
  exists px py : R,
    App.getIntersection (mkState kind (Fin f) d h) (mkCanvas (Fin W) (Fin H))
      (Fin x1) (Fin y1) (Fin x2) (Fin y2)
    = {| x := Fin px; y := Fin py |}
    /\ sqrt ((px - (W / 2 - 100 - 2 * f)) * (px - (W / 2 - 100 - 2 * f))
             + (py - H / 2) * (py - H / 2))
       = Rabs (2 * f).
Proof.
  intros Hk HA.
  set (p := intersectR (W / 2 - 100) (H / 2) (W / 2 - 100 - 2 * f) (H / 2)
              (Rabs (2 * f)) x1 y1 x2 y2).
  exists (x p), (y p). split.
  - now apply getIntersection_curved.
  - unfold p. rewrite intersectR_on_circle.
    + apply sqrt_square, Rabs_pos.
    + assumption.
    + rewrite Rabs_square. ring.
Qed.

(** The three construction rays of a curved mirror, for an object of
    nonzero height at a distance [d >= 0]: the segments handed to
    [getIntersection] have distinct endpoints, and each reflection point
    [(mx, my)] is on the arc's circle. *)
Lemma ray_reflection_points_on_arc (W H f d h : R) (kind : MirrorType) :
  kind <> PLANE -> 0 <= d -> h <> 0 ->
  let state := mkState kind (Fin f) (Fin d) (Fin h) in
  let canvas := mkCanvas (Fin W) (Fin H) in
  Forall
    (fun r : DrawRay.call number =>
       exists px py : R,
         DrawRay.mx r = Fin px /\ DrawRay.my r = Fin py
         /\ sqrt ((px - (W / 2 - 100 - 2 * f)) * (px - (W / 2 - 100 - 2 * f))
                  + (py - H / 2) * (py - H / 2))
            = Rabs (2 * f))
    (App.rays state canvas).
Proof.
  intros Hk Hd Hh state canvas.
  assert (Hx : App.objX state canvas = Fin (W / 2 - 100 - d)).
  { unfold App.objX, canvas. rewrite centerX_Fin. reflexivity. }
  assert (Hy : App.objY state canvas = Fin (H / 2 - h)).
  { unfold App.objY, canvas. rewrite centerY_Fin. reflexivity. }
  assert (Hon : forall x2 y2 : R,
             (x2 - (W / 2 - 100 - d)) * (x2 - (W / 2 - 100 - d))
             + (y2 - (H / 2 - h)) * (y2 - (H / 2 - h)) <> 0 ->
             exists px py : R,
               x (App.getIntersection state canvas (Fin (W / 2 - 100 - d))
                    (Fin (H / 2 - h)) (Fin x2) (Fin y2)) = Fin px
               /\ y (App.getIntersection state canvas (Fin (W / 2 - 100 - d))
                       (Fin (H / 2 - h)) (Fin x2) (Fin y2)) = Fin py
               /\ sqrt ((px - (W / 2 - 100 - 2 * f))
                        * (px - (W / 2 - 100 - 2 * f))
                        + (py - H / 2) * (py - H / 2))
                  = Rabs (2 * f)).
  { intros x2 y2 HA.
    destruct (@curved_intersection_on_arc W H f _ _ x2 y2 kind (Fin d) (Fin h)
                Hk HA) as (px & py & Hp & Hdist).
    exists px, py. fold state canvas in Hp. rewrite Hp. now repeat split. }
  assert (Hsq : forall a b : R, a <> 0 \/ b <> 0 -> a * a + b * b <> 0).
  { intros a b Hab E. destruct (Rplus_sqr_eq_0 a b E). tauto. }
  unfold App.rays. replace (mirrorType state) with kind by reflexivity.
  destruct kind; [contradiction | |]; cbv zeta; repeat constructor;
    cbn [DrawRay.mx DrawRay.my focalLength state];
    rewrite ?Hx, ?Hy; unfold canvas;
    rewrite ?centerX_Fin, ?centerY_Fin; autorewrite with fin;
    apply Hon; apply Hsq; first [left; lra | right; lra].
Qed.

(** Outside the segments the effect passes (its object height is never 0):
    a segment reduced to a point, such as the through-focus ray of an object
    of height 0 standing at the focus ([f = 100] on the page's canvas, where
    the focus is at [(200, 250)]), has no direction, and the returned point
    is [(NaN, NaN)]. *)
Lemma degenerate_segment_off_mirror :
  let state := mkState CONCAVE (Fin 100) (Fin 100) (Fin 0) in
  let canvas := mkCanvas (Fin 800) (Fin 500) in
  let p := App.getIntersection state canvas
             (Fin 200) (Fin 250) (Fin 200) (Fin 250) in
  p = {| x := NaN; y := NaN |}
  /\ ~ exists px py cx cy : R,
         p = {| x := Fin px; y := Fin py |}
         /\ App.Cx state canvas = Fin cx /\ App.Cy canvas = Fin cy
         /\ sqrt ((px - cx) * (px - cx) + (py - cy) * (py - cy))
            = Rabs (2 * 100).
Proof.
  intros state canvas p.
  assert (E : p = {| x := NaN; y := NaN |}).
  { apply (@getIntersection_degenerate 800 500 100 CONCAVE). discriminate. }
  split; [assumption |].
  intros (px & py & cx & cy & Hp & _). rewrite E in Hp. discriminate.
Qed.

(** C5.  The point returned by [getIntersection] lies on the mirror.  On a
    plane mirror it has the abscissa [centerX] of the vertex, for every
    input.  On a curved mirror, for every segment with finite coordinates
    and distinct endpoints, the returned point (fallback included) is at
    distance [|2f|] from the arc centre [(Cx, Cy)]; and in every state the
    controls keep the page in, the three segments the effect passes are
    such segments: the reflection point of every ray is at distance [|2f|]
    from the arc centre.  Distances are in exact arithmetic. *)
Theorem intersection_on_mirror (W H f x1 y1 x2 y2 : R) (kind : MirrorType)
    (d h : number) :
  let state := mkState kind (Fin f) d h in
  let canvas := mkCanvas (Fin W) (Fin H) in
  (kind = PLANE ->
   forall a1 b1 a2 b2 : number,
     x (App.getIntersection state canvas a1 b1 a2 b2) = App.centerX canvas)
  /\ (kind <> PLANE ->
      (x1, y1) <> (x2, y2) ->
      exists px py cx cy : R,
        App.getIntersection state canvas (Fin x1) (Fin y1) (Fin x2) (Fin y2)
        = {| x := Fin px; y := Fin py |}
        /\ App.Cx state canvas = Fin cx /\ App.Cy canvas = Fin cy
        /\ sqrt ((px - cx) * (px - cx) + (py - cy) * (py - cy))
           = Rabs (2 * f))
  /\ (forall page : SimulationState number,
        inRange page -> mirrorType page <> PLANE ->
        exists fl : R,
          focalLength page = Fin fl
          /\ Forall
               (fun r : DrawRay.call number =>
                  exists px py : R,
                    DrawRay.mx r = Fin px /\ DrawRay.my r = Fin py
                    /\ sqrt ((px - (W / 2 - 100 - 2 * fl))
                             * (px - (W / 2 - 100 - 2 * fl))
                             + (py - H / 2) * (py - H / 2))
                       = Rabs (2 * fl))
               (App.rays page canvas)).
Proof.
  intros state canvas. split; [| split].
  - intros -> a1 b1 a2 b2. reflexivity.
  - intros Hk Hne.
    destruct (@curved_intersection_on_arc W H f x1 y1 x2 y2 kind d h Hk
                (distinct_endpoints Hne)) as (px & py & Hp & Hdist).
    exists px, py, (W / 2 - 100 - 2 * f), (H / 2). repeat split.
    + exact Hp.
    + apply Cx_Fin.
    + apply Cy_Fin.
    + exact Hdist.
  - intros page (fl & dl & hl & Epage & _ & Hd & Hh) Hk.
    destruct page as [k f0 d0 h0]. simpl in Epage, Hk |- *.
    injection Epage as -> -> ->.
    exists fl. split; [reflexivity |].
    apply (@ray_reflection_points_on_arc W H fl dl hl k); [assumption | lra | lra].
Qed.

Lemma intersection_on_mirror_witness :
  CONCAVE <> PLANE /\ (100, 200) <> (200, 250) /\
  exists px py cx cy : R,
    App.getIntersection (mkState CONCAVE (Fin 100) (Fin 200) (Fin 50))
      (mkCanvas (Fin 800) (Fin 500)) (Fin 100) (Fin 200) (Fin 200) (Fin 250)
    = {| x := Fin px; y := Fin py |}
    /\ App.Cx (mkState CONCAVE (Fin 100) (Fin 200) (Fin 50))
         (mkCanvas (Fin 800) (Fin 500)) = Fin cx
    /\ App.Cy (mkCanvas (Fin 800) (Fin 500)) = Fin cy
    /\ sqrt ((px - cx) * (px - cx) + (py - cy) * (py - cy)) = Rabs (2 * 100).
Proof.
  assert (Hne : (100, 200) <> (200, 250)) by (intros E; injection E; lra).
  split; [discriminate |]. split; [exact Hne |].
  apply (proj1 (proj2 (@intersection_on_mirror 800 500 100 100 200 200 250
                         CONCAVE (Fin 200) (Fin 50))));
    [discriminate | exact Hne].
Defined.

(** The reading of C6 over the reals: on a segment with finite coordinates
    and a direction, when the discriminant is not negative, the returned
    point is the point of a root [t] of [A t^2 + B t + C = 0], and no root's
    point is closer in abscissa to the vertex. *)
Lemma getIntersection_nearest_root (W H f x1 y1 x2 y2 : R) (kind : MirrorType)
    (d h : number) :
  let dx := x2 - x1 in
  let dy := y2 - y1 in
  let cx := W / 2 - 100 - 2 * f in
  let cy := H / 2 in
  let A := dx * dx + dy * dy in
  let B := 2 * (dx * (x1 - cx) + dy * (y1 - cy)) in
  let C := (x1 - cx) * (x1 - cx) + (y1 - cy) * (y1 - cy)
           - Rabs (2 * f) * Rabs (2 * f) in
  kind <> PLANE -> A <> 0 -> 0 <= B * B - 4 * A * C ->
  exists t : R,
    A * t * t + B * t + C = 0
    /\ App.getIntersection (mkState kind (Fin f) d h)
         (mkCanvas (Fin W) (Fin H)) (Fin x1) (Fin y1) (Fin x2) (Fin y2)
       = {| x := Fin (x1 + t * dx); y := Fin (y1 + t * dy) |}
    /\ forall t' : R,
         A * t' * t' + B * t' + C = 0 ->
         Rabs (x1 + t * dx - (W / 2 - 100))
         <= Rabs (x1 + t' * dx - (W / 2 - 100)).
Proof.
  intros dx dy cx cy A B C Hk HA Hdet. subst A B C dx dy cx cy.
  destruct (@intersectR_nearest_root (W / 2 - 100) (H / 2)
              (W / 2 - 100 - 2 * f) (H / 2) (Rabs (2 * f)) x1 y1 x2 y2 HA Hdet)
    as [(t & Ht & Ex & Ey) Hmin].
  exists t. repeat split.
  - exact Ht.
  - rewrite getIntersection_curved by assumption. cbv zeta.
    now rewrite Ex, Ey.
  - intros t' Ht'. rewrite <- Ex. now apply Hmin.
Qed.

End ReflectionPoints.

Section RootSelection.
Local Open Scope js_scope.

(** C6.  In the curved case: when the discriminant [B*B - 4*A*C] tests
    negative the vertex [(centerX, centerY)] is returned; otherwise the
    result is the point of one of the two roots, and neither root's point is
    strictly closer in abscissa to [centerX] than it. *)
Theorem nearest_root_selected (state : SimulationState number)
    (canvas : Canvas number) (x1 y1 x2 y2 : number) :
  mirrorType state <> PLANE ->
  let centerX := App.centerX canvas in
  let centerY := App.centerY canvas in
  let Cx := App.Cx state canvas in
  let Cy := App.Cy canvas in
  let absR := App.absR state in
  let dx := x2 - x1 in
  let dy := y2 - y1 in
  let A := dx * dx + dy * dy in
  let B := lit 2 * (dx * (x1 - Cx) + dy * (y1 - Cy)) in
  let C := (x1 - Cx) * (x1 - Cx) + (y1 - Cy) * (y1 - Cy) - absR * absR in
  let det := B * B - lit 4 * A * C in
  let t1 := (- B + Math_sqrt det) / (lit 2 * A) in
  let t2 := (- B - Math_sqrt det) / (lit 2 * A) in
  let p1 := {| x := x1 + t1 * dx; y := y1 + t1 * dy |} in
  let p2 := {| x := x1 + t2 * dx; y := y1 + t2 * dy |} in
  let p := App.getIntersection state canvas x1 y1 x2 y2 in
  ((det < lit 0) = true -> p = {| x := centerX; y := centerY |})
  /\ ((det < lit 0) = false ->
      (p = p1 \/ p = p2)
      /\ (Math_abs (x p1 - centerX) < Math_abs (x p - centerX)) = false
      /\ (Math_abs (x p2 - centerX) < Math_abs (x p - centerX)) = false).
Proof.
  intros Hk centerX centerY Cx Cy absR dx dy A B C det t1 t2 p1 p2 p.
  assert (E : p = if det < lit 0 then {| x := centerX; y := centerY |}
                  else if Math_abs (x p1 - centerX) < Math_abs (x p2 - centerX)
                       then p1 else p2).
  { unfold p, App.getIntersection.
    destruct (mirrorType state); [contradiction | reflexivity | reflexivity]. }
  rewrite E. split; intros Hdet; rewrite Hdet; [reflexivity |].
  destruct (Math_abs (x p1 - centerX) < Math_abs (x p2 - centerX)) eqn:Hlt.
  - repeat split.
    + now left.
    + apply lt_irrefl.
    + now apply lt_asym.
  - repeat split.
    + now right.
    + assumption.
    + apply lt_irrefl.
Qed.

Lemma nearest_root_selected_witness :
  let state := mkState CONVEX (Fin (-100)) (Fin 200) (Fin 50) in
  let canvas := mkCanvas (Fin 800) (Fin 500) in
  let x1 := Fin 100 in
  let y1 := Fin 200 in
  let x2 := Fin 400 in
  let y2 := Fin 200 in
  mirrorType state <> PLANE
  /\ (let centerX := App.centerX canvas in
      let centerY := App.centerY canvas in
      let Cx := App.Cx state canvas in
      let Cy := App.Cy canvas in
      let absR := App.absR state in
      let dx := x2 - x1 in
      let dy := y2 - y1 in
      let A := dx * dx + dy * dy in
      let B := lit 2 * (dx * (x1 - Cx) + dy * (y1 - Cy)) in
      let C := (x1 - Cx) * (x1 - Cx) + (y1 - Cy) * (y1 - Cy) - absR * absR in
      let det := B * B - lit 4 * A * C in
      let t1 := (- B + Math_sqrt det) / (lit 2 * A) in
      let t2 := (- B - Math_sqrt det) / (lit 2 * A) in
      let p1 := {| x := x1 + t1 * dx; y := y1 + t1 * dy |} in
      let p2 := {| x := x1 + t2 * dx; y := y1 + t2 * dy |} in
      let p := App.getIntersection state canvas x1 y1 x2 y2 in
      ((det < lit 0) = true -> p = {| x := centerX; y := centerY |})
      /\ ((det < lit 0) = false ->
          (p = p1 \/ p = p2)
          /\ (Math_abs (x p1 - centerX) < Math_abs (x p - centerX)) = false
          /\ (Math_abs (x p2 - centerX) < Math_abs (x p - centerX)) = false)).
Proof.
  intros state canvas x1 y1 x2 y2.
  split; [discriminate | apply nearest_root_selected; discriminate].
Defined.

(** At that input the discriminant is not negative: a root is selected. *)
Lemma convex_parallel_ray_discriminant :
  let Cx := App.Cx (mkState CONVEX (Fin (-100)) (Fin 200) (Fin 50))
              (mkCanvas (Fin 800) (Fin 500)) in
  let Cy := App.Cy (mkCanvas (Fin 800) (Fin 500)) in
  let absR := App.absR (mkState CONVEX (Fin (-100)) (Fin 200) (Fin 50)) in
  let dx := Fin 400 - Fin 100 in
  let dy := Fin 200 - Fin 200 in
  let A := dx * dx + dy * dy in
  let B := lit 2 * (dx * (Fin 100 - Cx) + dy * (Fin 200 - Cy)) in
  let C := (Fin 100 - Cx) * (Fin 100 - Cx) + (Fin 200 - Cy) * (Fin 200 - Cy)
           - absR * absR in
  (B * B - lit 4 * A * C < lit 0) = false.
Proof.
  cbv zeta. rewrite Cx_Fin, Cy_Fin, absR_Fin. autorewrite with fin.
  destruct Rlt_dec as [Hneg | _]; [| reflexivity].
  exfalso. rewrite Rabs_square in Hneg. lra.
Qed.

End RootSelection.

(** ** The image tip and the construction rays *)

Section ImageTip.
Context {num : Type} {N : JSNumber num} {M : JSMath num}.
Local Open Scope js_scope.

Lemma plane_image_height (state : SimulationState num) :
  mirrorType state = PLANE ->
  imageHeight (App.image state) = objectHeight state.
Proof. destruct state as [kind f d h]. simpl. now intros ->. Qed.

Lemma plane_image_virtual (state : SimulationState num) :
  mirrorType state = PLANE -> isReal (App.image state) = false.
Proof. destruct state as [kind f d h]. simpl. now intros ->. Qed.

Lemma plane_imgTipY (state : SimulationState num) (canvas : Canvas num) :
  mirrorType state = PLANE ->
  App.imgTipY state canvas = App.objY state canvas.
Proof.
  intros Hk. unfold App.imgTipY, App.objY. rewrite Hk.
  now rewrite plane_image_height.
Qed.

(** C7.  For a curved mirror the ordinate of the image tip is the ordinate
    of the point where the line from the object tip towards the focus meets
    the mirror, as [getIntersection] gives it, and the image arrow is drawn
    to it; magnification and image height of [image] stay those of the
    solver.  For a plane mirror the ordinate is [centerY - imageHeight]. *)
Theorem image_tip_reconciliation (canvas : Canvas num)
    (focalLength objectDistance objectHeight : num) :
  (forall kind : MirrorType,
      kind <> PLANE ->
      let state := mkState kind focalLength objectDistance objectHeight in
      let di := calculateImageDistance objectDistance focalLength in
      App.imgTipY state canvas
      = y (App.getIntersection state canvas
             (App.objX state canvas) (App.objY state canvas)
             (App.centerX canvas - focalLength) (App.centerY canvas))
      /\ magnification (App.image state) = (- di) / objectDistance
      /\ imageHeight (App.image state)
         = (- di) / objectDistance * objectHeight
      /\ ((Math_abs (imageDistance (App.image state)) < lit 2000) = true ->
          In (lineTo (App.imgTipX state canvas) (App.imgTipY state canvas))
             (App.drawImage state canvas)))
  /\ (let state := mkState PLANE focalLength objectDistance objectHeight in
      App.imgTipY state canvas
      = App.centerY canvas - imageHeight (App.image state)).
Proof.
  split; [| reflexivity].
  intros kind Hk state di. repeat split.
  - destruct kind; [contradiction | reflexivity | reflexivity].
  - destruct kind; [contradiction | reflexivity | reflexivity].
  - destruct kind; [contradiction | reflexivity | reflexivity].
  - intros Hshown. unfold App.drawImage. rewrite Hshown.
    apply in_or_app. right. apply in_or_app. left.
    unfold App.drawArrow, App.imgTipX. simpl. tauto.
Qed.

(** The commands of one ray: incident and reflected segment, then the
    virtual extension from the reflection point when it is shown. *)
Lemma drawRayCall_virtual (r : DrawRay.call num) :
  DrawRay.showVirtual r = true ->
  App.drawRayCall r
  = [ set_strokeStyle (DrawRay.color r);
      beginPath; moveTo (DrawRay.x1 r) (DrawRay.y1 r); lineTo (DrawRay.mx r) (DrawRay.my r);
      stroke;
      beginPath; moveTo (DrawRay.mx r) (DrawRay.my r); lineTo (DrawRay.rx r) (DrawRay.ry r);
      stroke ]
    ++ [ setLineDash [lit 2; lit 4];
         beginPath; moveTo (DrawRay.mx r) (DrawRay.my r); lineTo (DrawRay.vx r) (DrawRay.vy r);
         stroke;
         setLineDash [] ].
Proof. intros Hv. unfold App.drawRayCall, App.drawRay. now rewrite Hv. Qed.

(** C8.  When the image is virtual, every ray of the effect (two for a
    plane mirror, three for a curved one) is drawn with its virtual
    extension, a segment from the ray's reflection point [(mx, my)] to the
    image tip [(imgTipX, imgTipY)]. *)
Theorem virtual_extensions_reach_image_tip (state : SimulationState num)
    (canvas : Canvas num) :
  isReal (App.image state) = false ->
  List.length (App.rays state canvas)
  = match mirrorType state with PLANE => 2%nat | _ => 3%nat end
  /\ Forall
       (fun r : DrawRay.call num =>
          DrawRay.showVirtual r = true
          /\ DrawRay.vx r = App.imgTipX state canvas
          /\ DrawRay.vy r = App.imgTipY state canvas
          /\ exists segments : list (CanvasOp num),
               App.drawRayCall r
               = segments
                 ++ [ setLineDash [lit 2; lit 4];
                      beginPath;
                      moveTo (DrawRay.mx r) (DrawRay.my r);
                      lineTo (App.imgTipX state canvas)
                             (App.imgTipY state canvas);
                      stroke;
                      setLineDash [] ])
       (App.rays state canvas).
Proof.
  intros Hvirtual.
  assert (Hrays : Forall
            (fun r : DrawRay.call num =>
               DrawRay.showVirtual r = true
               /\ DrawRay.vx r = App.imgTipX state canvas
               /\ DrawRay.vy r = App.imgTipY state canvas)
            (App.rays state canvas)).
  { unfold App.rays. destruct (mirrorType state) eqn:Hk.
    - repeat constructor; simpl. symmetry. now apply plane_imgTipY.
    - rewrite Hvirtual. repeat constructor.
    - rewrite Hvirtual. repeat constructor. }
  split.
  - unfold App.rays. now destruct (mirrorType state).
  - eapply Forall_impl; [| exact Hrays].
    intros r (Hv & Hx & Hy). repeat split; trivial.
    eexists. rewrite <- Hx, <- Hy. now apply drawRayCall_virtual.
Qed.

(** The effect ends with the commands of its rays, in order. *)
Lemma effect_draws_rays (state : SimulationState num) (canvas : Canvas num) :
  exists before : list (CanvasOp num),
    App.effect state canvas
    = before ++ flat_map App.drawRayCall (App.rays state canvas).
Proof.
  unfold App.effect, App.drawRays.
  eexists. rewrite !app_assoc. reflexivity.
Qed.

End ImageTip.

(** ** The theorems at concrete inputs *)

Section Instances.
Local Open Scope js_scope.

Lemma image_tip_reconciliation_witness :
  let canvas := mkCanvas (Fin 800) (Fin 500) in
  let state := mkState CONCAVE (Fin 100) (Fin 200) (Fin 50) in
  let di := calculateImageDistance (Fin 200) (Fin 100) in
  CONCAVE <> PLANE
  /\ App.imgTipY state canvas
     = y (App.getIntersection state canvas
            (App.objX state canvas) (App.objY state canvas)
            (App.centerX canvas - Fin 100) (App.centerY canvas))
  /\ magnification (App.image state) = (- di) / Fin 200
  /\ imageHeight (App.image state) = (- di) / Fin 200 * Fin 50
  /\ ((Math_abs (imageDistance (App.image state)) < lit 2000) = true ->
      In (lineTo (App.imgTipX state canvas) (App.imgTipY state canvas))
         (App.drawImage state canvas)).
Proof.
  intros canvas state di. split; [discriminate |].
  apply (proj1 (@image_tip_reconciliation number _ _ canvas
                  (Fin 100) (Fin 200) (Fin 50)) CONCAVE).
  discriminate.
Defined.

(** An object inside the focal length of a concave mirror: virtual image. *)
Lemma inside_focus_virtual :
  isReal (App.image (mkState CONCAVE (Fin 100) (Fin 50) (Fin 50))) = false.
Proof.
  change ((lit 0 < calculateImageDistance (Fin 50) (Fin 100)) = false).
  rewrite calculateImageDistance_Fin by lra. autorewrite with fin.
  destruct Rlt_dec as [Hpos | _]; [| reflexivity].
  exfalso. replace (50 * 100 / (50 - 100))%R with (-100)%R in Hpos by field.
  lra.
Qed.

Lemma virtual_extensions_reach_image_tip_witness :
  let state := mkState CONCAVE (Fin 100) (Fin 50) (Fin 50) in
  let canvas := mkCanvas (Fin 800) (Fin 500) in
  isReal (App.image state) = false
  /\ List.length (App.rays state canvas) = 3%nat
  /\ Forall
       (fun r : DrawRay.call number =>
          DrawRay.showVirtual r = true
          /\ DrawRay.vx r = App.imgTipX state canvas
          /\ DrawRay.vy r = App.imgTipY state canvas
          /\ exists segments : list (CanvasOp number),
               App.drawRayCall r
               = segments
                 ++ [ setLineDash [lit 2; lit 4];
                      beginPath;
                      moveTo (DrawRay.mx r) (DrawRay.my r);
                      lineTo (App.imgTipX state canvas)
                             (App.imgTipY state canvas);
                      stroke;
                      setLineDash [] ])
       (App.rays state canvas).
Proof.
  intros state canvas. split; [exact inside_focus_virtual |].
  apply (@virtual_extensions_reach_image_tip number _ _ state canvas).
  exact inside_focus_virtual.
Defined.

Lemma inverse_drive_rejects_witness :
  let state := mkState CONCAVE (Fin 100) (Fin 200) (Fin 50) in
  let newDo := calculateObjectDistance (Fin 100) (Fin 100) in
  mirrorType state <> PLANE
  /\ (newDo > lit 0) && (newDo < lit 1000) = false
  /\ App.handleImageDistanceChange state (Fin 100) = state
  /\ objectDistance (App.handleImageDistanceChange state (Fin 100)) = Fin 200.
Proof.
  intros state newDo.
  assert (Hout : (newDo > lit 0) && (newDo < lit 1000) = false).
  { unfold newDo.
    change (calculateObjectDistance (Fin 100) (Fin 100))
      with (calculateImageDistance (Fin 100) (Fin 100)).
    now rewrite sentinel_at_finite_focus. }
  split; [discriminate |]. split; [exact Hout |].
  apply (@inverse_drive_rejects number _ state (Fin 100));
    [discriminate | exact Hout].
Defined.

End Instances.

(** ** Replay on binary64

    The same programs run on the kernel's IEEE 754 binary64 numbers, at the
    scenarios of the specification and at the inputs used above. *)

Section Binary64.
Local Open Scope js_scope.
Let float := PrimFloat.float.
Let page : Canvas float := pageCanvas.

Lemma binary64_beyond_focus :
  calculateImage (mkState CONCAVE (lit 100 : float) (lit 200) (lit 50))
  = {| imageDistance := lit 200; imageHeight := lit (-50);
       magnification := lit (-1); isReal := true |}.
Proof. vm_compute. reflexivity. Qed.

Lemma binary64_inside_focus :
  calculateImage (mkState CONCAVE (lit 100 : float) (lit 50) (lit 50))
  = {| imageDistance := lit (-100); imageHeight := lit 100;
       magnification := lit 2; isReal := false |}.
Proof. vm_compute. reflexivity. Qed.

Lemma binary64_at_focus :
  calculateImage (mkState CONCAVE (lit 100 : float) (lit 100) (lit 50))
  = {| imageDistance := Infinity; imageHeight := - Infinity;
       magnification := - Infinity; isReal := true |}.
Proof. vm_compute. reflexivity. Qed.

Lemma binary64_convex :
  let image := calculateImage
                 (mkState CONVEX (lit (-100) : float) (lit 200) (lit 50)) in
  (lit (-6668) / lit 100 < imageDistance image) = true
  /\ (imageDistance image < lit (-6666) / lit 100) = true
  /\ (lit 333 / lit 1000 < magnification image) = true
  /\ (magnification image < lit 334 / lit 1000) = true
  /\ isReal image = false.
Proof. vm_compute. repeat split. Qed.

(** The input that refutes C2, on binary64. *)
Lemma binary64_zero_focal_length :
  calculateImageDistance (lit 1 : float) (lit 0) = lit 0
  /\ calculateObjectDistance (calculateImageDistance (lit 1 : float) (lit 0))
       (lit 0) = Infinity
  /\ (calculateObjectDistance (calculateImageDistance (lit 1 : float) (lit 0))
        (lit 0) === lit 1) = false.
Proof. vm_compute. repeat split. Qed.

(** The segment reduced to a point, on binary64: [NaN] is the one number
    that is not [===] to itself. *)
Lemma binary64_degenerate_segment :
  let state := mkState CONCAVE (lit 100 : float) (lit 100) (lit 0) in
  let p := App.getIntersection state page
             (App.objX state page) (App.objY state page)
             (App.centerX page - lit 100) (App.centerY page) in
  App.objX state page = lit 200 /\ App.objY state page = lit 250
  /\ App.centerX page - lit 100 = lit 200 /\ App.centerY page = lit 250
  /\ (x p === x p) = false /\ (y p === y p) = false.
Proof. vm_compute. repeat split. Qed.

(** Both branches of the curved case at the reset state: a line that misses
    the circle falls back on the vertex [(300, 250)]; the parallel ray from
    the object tip [(100, 200)] takes the root near the vertex, not the far
    side of the circle at [x < 0]. *)
Lemma binary64_root_selection :
  let state := mkState CONCAVE (lit 100 : float) (lit 200) (lit 50) in
  App.getIntersection state page (lit 0) (lit 0) (lit 100) (lit 0)
  = {| x := lit 300; y := lit 250 |}
  /\ (let m1 := App.getIntersection state page (App.objX state page)
                   (App.objY state page) (App.centerX page + lit 100)
                   (App.objY state page) in
      (lit 293 < x m1) = true /\ (x m1 < lit 294) = true
      /\ y m1 = lit 200).
Proof. vm_compute. repeat split. Qed.

(** The reset state of the page (concave, [f = 100], object at 200, height
    50): the drawn tip, from the through-focus ray, is short of the
    algebraic one, [centerY - imageHeight = 300]. *)
Lemma binary64_image_tip_override :
  let state := mkState CONCAVE (lit 100 : float) (lit 200) (lit 50) in
  App.centerY page - imageHeight (App.image state) = lit 300
  /\ (lit 297 < App.imgTipY state page) = true
  /\ (App.imgTipY state page < lit 298) = true.
Proof. vm_compute. repeat split. Qed.

(** The handler on the reset state: an image distance of 50 asks for the
    object distance -100 and is refused; 300 asks for 150 and is taken. *)
Lemma binary64_inverse_drive :
  let state := mkState CONCAVE (lit 100 : float) (lit 200) (lit 50) in
  calculateObjectDistance (lit 50 : float) (lit 100) = lit (-100)
  /\ App.handleImageDistanceChange state (lit 50) = state
  /\ objectDistance (App.handleImageDistanceChange state (lit 300)) = lit 150.
Proof. vm_compute. repeat split. Qed.

End Binary64.

(** * Further properties *)

(** ** Image formation by case *)

Section ImageFormation.
Local Open Scope R_scope.

(** The image of a curved mirror for a finite object off the focus and off
    the mirror, in closed form. *)
Lemma calculateImage_Fin (kind : MirrorType) (f d h : R) :
  kind <> PLANE -> d <> f -> d <> 0 ->
  calculateImage (mkState kind (Fin f) (Fin d) (Fin h))
  = {| imageDistance := Fin (d * f / (d - f));
       imageHeight := Fin (f / (f - d) * h);
       magnification := Fin (f / (f - d));
       isReal := if Rlt_dec 0 (d * f / (d - f)) then true else false |}.
Proof.
  intros Hk Hdf Hd.
  assert (E : calculateImage (mkState kind (Fin f) (Fin d) (Fin h))
              = let di := calculateImageDistance (Fin d) (Fin f) in
                {| imageDistance := di;
                   imageHeight := ((- di) / Fin d * Fin h)%js;
                   magnification := ((- di) / Fin d)%js;
                   isReal := (di > lit 0)%js |})
    by (destruct kind; [contradiction | reflexivity | reflexivity]).
  rewrite E. cbv zeta. rewrite calculateImageDistance_Fin by assumption.
  autorewrite with fin. rewrite quot_Fin by assumption. autorewrite with fin.
  replace (- (d * f / (d - f)) / d) with (f / (f - d)) by (field; lra).
  reflexivity.
Qed.

(** X1.  A mirror of negative focal length (convex) forms, of every object
    in front of it, a virtual image behind the mirror and nearer than the
    focus, upright and reduced: [f < di < 0] and [0 < m < 1]. *)
Theorem convex_image_virtual_upright_reduced (kind : MirrorType) (f d h : R) :
  kind <> PLANE -> f < 0 -> 0 < d ->
  exists di m : R,
    calculateImage (mkState kind (Fin f) (Fin d) (Fin h))
    = {| imageDistance := Fin di; imageHeight := Fin (m * h);
         magnification := Fin m; isReal := false |}
    /\ f < di < 0 /\ 0 < m < 1.
Proof.
  intros Hk Hf Hd.
  exists (d * f / (d - f)), (f / (f - d)).
  assert (Hpos : 0 < / (d - f)) by (apply Rinv_0_lt_compat; lra).
  assert (Edi : d * f / (d - f) = f + f * f * / (d - f)) by (field; lra).
  assert (Edi' : d * f / (d - f) = - (d * - f * / (d - f))) by (field; lra).
  assert (Em : f / (f - d) = - f * / (d - f)) by (field; lra).
  assert (Em' : f / (f - d) = 1 - d * / (d - f)) by (field; lra).
  assert (0 < f * f * / (d - f)) by (apply Rmult_lt_0_compat; nra).
  assert (0 < d * - f * / (d - f)) by (apply Rmult_lt_0_compat; nra).
  assert (0 < - f * / (d - f)) by (apply Rmult_lt_0_compat; lra).
  assert (0 < d * / (d - f)) by (apply Rmult_lt_0_compat; lra).
  repeat split; try lra.
  rewrite calculateImage_Fin by (assumption || lra).
  destruct Rlt_dec; [lra | reflexivity].
Qed.

Lemma convex_image_virtual_upright_reduced_witness :
  CONVEX <> PLANE /\ -100 < 0 /\ 0 < 200
  /\ exists di m : R,
       calculateImage (mkState CONVEX (Fin (-100)) (Fin 200) (Fin 50))
       = {| imageDistance := Fin di; imageHeight := Fin (m * 50);
            magnification := Fin m; isReal := false |}
       /\ -100 < di < 0 /\ 0 < m < 1.
Proof.
  split; [discriminate |]. split; [lra |]. split; [lra |].
  apply (@convex_image_virtual_upright_reduced CONVEX (-100) 200 50);
    [discriminate | lra | lra].
Defined.

(** X2.  A mirror of positive focal length (concave) forms, of an object
    beyond the focus, a real inverted image beyond the focus; the image is
    reduced, of equal size or magnified as the object is beyond, at or
    within twice the focal length. *)
Theorem concave_beyond_focus_real_inverted (kind : MirrorType) (f d h : R) :
  kind <> PLANE -> 0 < f -> f < d ->
  exists di m : R,
    calculateImage (mkState kind (Fin f) (Fin d) (Fin h))
    = {| imageDistance := Fin di; imageHeight := Fin (m * h);
         magnification := Fin m; isReal := true |}
    /\ f < di /\ m < 0
    /\ (2 * f < d -> di < d /\ -1 < m)
    /\ (d = 2 * f -> di = d /\ m = -1)
    /\ (d < 2 * f -> d < di /\ m < -1).
Proof.
  intros Hk Hf Hd.
  exists (d * f / (d - f)), (f / (f - d)).
  assert (Hpos : 0 < / (d - f)) by (apply Rinv_0_lt_compat; lra).
  assert (Edi : d * f / (d - f) = f + f * f * / (d - f)) by (field; lra).
  assert (Edi' : d * f / (d - f) = d + d * (2 * f - d) * / (d - f))
    by (field; lra).
  assert (Em : f / (f - d) = - (f * / (d - f))) by (field; lra).
  assert (Em' : f / (f - d) = -1 + (d - 2 * f) * / (d - f)) by (field; lra).
  assert (Hff : 0 < f * f * / (d - f)) by (apply Rmult_lt_0_compat; nra).
  assert (Hf' : 0 < f * / (d - f)) by (apply Rmult_lt_0_compat; lra).
  split; [| repeat split].
  - rewrite calculateImage_Fin by (assumption || lra).
    destruct Rlt_dec; [reflexivity | lra].
  - lra.
  - lra.
  - assert (d * (2 * f - d) * / (d - f) < 0).
    { replace (d * (2 * f - d) * / (d - f))
        with (- (d * (d - 2 * f) * / (d - f))) by ring.
      assert (0 < d * (d - 2 * f) * / (d - f))
        by (apply Rmult_lt_0_compat; nra). lra. }
    lra.
  - assert (0 < (d - 2 * f) * / (d - f)) by (apply Rmult_lt_0_compat; lra).
    lra.
  - subst d. rewrite Edi'. ring.
  - subst d. rewrite Em'. ring.
  - assert (0 < d * (2 * f - d) * / (d - f))
      by (apply Rmult_lt_0_compat; nra). lra.
  - assert (0 < (2 * f - d) * / (d - f)) by (apply Rmult_lt_0_compat; lra).
    replace ((d - 2 * f) * / (d - f)) with (- ((2 * f - d) * / (d - f)))
      in Em' by ring.
    lra.
Qed.

Lemma concave_beyond_focus_real_inverted_witness :
  CONCAVE <> PLANE /\ 0 < 100 /\ 100 < 200
  /\ exists di m : R,
       calculateImage (mkState CONCAVE (Fin 100) (Fin 200) (Fin 50))
       = {| imageDistance := Fin di; imageHeight := Fin (m * 50);
            magnification := Fin m; isReal := true |}
       /\ 100 < di /\ m < 0
       /\ (2 * 100 < 200 -> di < 200 /\ -1 < m)
       /\ (200 = 2 * 100 -> di = 200 /\ m = -1)
       /\ (200 < 2 * 100 -> 200 < di /\ m < -1).
Proof.
  split; [discriminate |]. split; [lra |]. split; [lra |].
  apply (@concave_beyond_focus_real_inverted CONCAVE 100 200 50);
    [discriminate | lra | lra].
Defined.

(** X3.  A concave mirror forms, of an object between the mirror and the
    focus, a virtual image behind the mirror, upright and magnified:
    [di < 0] and [1 < m]. *)
Theorem concave_inside_focus_virtual_magnified (kind : MirrorType)
    (f d h : R) :
  kind <> PLANE -> 0 < d -> d < f ->
  exists di m : R,
    calculateImage (mkState kind (Fin f) (Fin d) (Fin h))
    = {| imageDistance := Fin di; imageHeight := Fin (m * h);
         magnification := Fin m; isReal := false |}
    /\ di < 0 /\ 1 < m.
Proof.
  intros Hk Hd Hf.
  exists (d * f / (d - f)), (f / (f - d)).
  assert (Hpos : 0 < / (f - d)) by (apply Rinv_0_lt_compat; lra).
  assert (Edi : d * f / (d - f) = - (d * f * / (f - d))) by (field; lra).
  assert (Em : f / (f - d) = 1 + d * / (f - d)) by (field; lra).
  assert (0 < d * f * / (f - d)) by (apply Rmult_lt_0_compat; nra).
  assert (0 < d * / (f - d)) by (apply Rmult_lt_0_compat; lra).
  repeat split; try lra.
  rewrite calculateImage_Fin by (assumption || lra).
  destruct Rlt_dec; [lra | reflexivity].
Qed.

Lemma concave_inside_focus_virtual_magnified_witness :
  CONCAVE <> PLANE /\ 0 < 50 /\ 50 < 100
  /\ exists di m : R,
       calculateImage (mkState CONCAVE (Fin 100) (Fin 50) (Fin 50))
       = {| imageDistance := Fin di; imageHeight := Fin (m * 50);
            magnification := Fin m; isReal := false |}
       /\ di < 0 /\ 1 < m.
Proof.
  split; [discriminate |]. split; [lra |]. split; [lra |].
  apply (@concave_inside_focus_virtual_magnified CONCAVE 100 50 50);
    [discriminate | lra | lra].
Defined.

End ImageFormation.

(** ** The sentinel *)

Section Sentinel.
Local Open Scope js_scope.

(** X4.  In exact arithmetic the forward solve returns [Infinity] exactly
    when its guard [objDist === f] fires, and never [-Infinity]: off the
    guard, finite arguments give a finite quotient and every other pair
    gives [NaN]. *)
Theorem sentinel_only_from_guard (objDist f : number) :
  (calculateImageDistance objDist f = Infinity <-> (objDist === f) = true)
  /\ calculateImageDistance objDist f <> NInf
  /\ (forall a b : R,
        objDist = Fin a -> f = Fin b -> a <> b ->
        exists q : R, calculateImageDistance objDist f = Fin q).
Proof.
  split; [| split].
  - destruct objDist, f; unfold calculateImageDistance; simpl;
      unfold Ideal.inf_signed; real_cases; simpl;
      split; intros; try discriminate; try reflexivity.
  - destruct objDist, f; unfold calculateImageDistance; simpl;
      unfold Ideal.inf_signed; real_cases; simpl; discriminate.
  - intros a b -> -> Hab. eexists. now apply calculateImageDistance_Fin.
Qed.

(** X5.  An object at the focus of a curved mirror ([do = f > 0]): the
    image is reported real, at [Infinity], with magnification [-Infinity];
    no image arrow is drawn, the image tip is at [-Infinity] and no ray gets
    a virtual extension. *)
Theorem object_at_focus (W H f h : R) (kind : MirrorType) :
  kind <> PLANE -> (0 < f)%R ->
  let state := mkState kind (Fin f) (Fin f) (Fin h) in
  let canvas := mkCanvas (Fin W) (Fin H) in
  imageDistance (App.image state) = Infinity
  /\ magnification (App.image state) = - Infinity
  /\ isReal (App.image state) = true
  /\ App.imgTipX state canvas = - Infinity
  /\ App.drawImage state canvas = []
  /\ Forall (fun r : DrawRay.call number => DrawRay.showVirtual r = false)
       (App.rays state canvas).
Proof.
  intros Hk Hf state canvas.
  assert (E : App.image state
              = {| imageDistance := PInf;
                   imageHeight := (NInf * Fin h)%js;
                   magnification := NInf;
                   isReal := true |}).
  { assert (E : App.image state
                = let di := calculateImageDistance (Fin f) (Fin f) in
                  {| imageDistance := di;
                     imageHeight := ((- di) / Fin f * Fin h)%js;
                     magnification := ((- di) / Fin f)%js;
                     isReal := (di > lit 0)%js |})
      by (unfold state; destruct kind;
          [contradiction | reflexivity | reflexivity]).
    rewrite E. cbv zeta. rewrite sentinel_at_finite_focus. simpl.
    destruct (Rlt_dec f 0); [lra | reflexivity]. }
  repeat split.
  - now rewrite E.
  - now rewrite E.
  - now rewrite E.
  - unfold App.imgTipX, canvas. rewrite centerX_Fin, E. reflexivity.
  - unfold App.drawImage. rewrite E. reflexivity.
  - unfold App.rays. rewrite E.
    replace (mirrorType state) with kind by reflexivity.
    destruct kind; [contradiction | |]; repeat constructor.
Qed.

Lemma object_at_focus_witness :
  let state := mkState CONCAVE (Fin 100) (Fin 100) (Fin 50) in
  let canvas := mkCanvas (Fin 800) (Fin 500) in
  CONCAVE <> PLANE /\ (0 < 100)%R
  /\ imageDistance (App.image state) = Infinity
  /\ magnification (App.image state) = - Infinity
  /\ isReal (App.image state) = true
  /\ App.imgTipX state canvas = - Infinity
  /\ App.drawImage state canvas = []
  /\ Forall (fun r : DrawRay.call number => DrawRay.showVirtual r = false)
       (App.rays state canvas).
Proof.
  intros state canvas. split; [discriminate |]. split; [lra |].
  apply (@object_at_focus 800 500 100 50 CONCAVE); [discriminate | lra].
Defined.

End Sentinel.

(** ** Driving the page by the image distance *)

Section InverseDrive.
Local Open Scope js_scope.

(** X6.  The handler is idempotent: a second call with the same image
    distance changes nothing more, whatever the number type. *)
Theorem inverse_drive_idempotent (num : Type) (N : JSNumber num)
    (state : SimulationState num) (di : num) :
  App.handleImageDistanceChange (App.handleImageDistanceChange state di) di
  = App.handleImageDistanceChange state di.
Proof.
  destruct state as [kind f d h]. unfold App.handleImageDistanceChange.
  destruct kind; simpl; trivial;
    destruct ((calculateObjectDistance di f > lit 0)
              && (calculateObjectDistance di f < lit 1000)) eqn:Hin;
    simpl; rewrite ?Hin; reflexivity.
Qed.

Lemma curved_imageDistance (num : Type) (N : JSNumber num)
    (kind : MirrorType) (f d h : num) :
  kind <> PLANE ->
  imageDistance (calculateImage (mkState kind f d h))
  = calculateImageDistance d f.
Proof. destruct kind; [contradiction | reflexivity | reflexivity]. Qed.

Lemma quotient_involutive (d f : R) :
  d <> f -> f <> 0%R ->
  (d * f / (d - f) <> f
   /\ d * f / (d - f) * f / (d * f / (d - f) - f) = d)%R.
Proof.
  intros Hdf Hf.
  assert (E : (d * f / (d - f) - f = f * f / (d - f))%R) by (field; lra).
  assert (Hff : (f * f / (d - f) <> 0)%R).
  { unfold Rdiv. apply Rmult_integral_contrapositive_currified.
    - now apply Rmult_integral_contrapositive_currified.
    - apply Rinv_neq_0_compat. lra. }
  split; [lra |].
  rewrite E. field. repeat split; (assumption || lra).
Qed.

(** X7.  In exact arithmetic, when the handler accepts an image distance
    for a curved mirror, the image of the new state is at that distance: the
    drive is a right inverse of the solver.  (On binary64 the two quotients
    round, and the image comes back within rounding of the request.) *)
Theorem accepted_drive_is_solved (kind : MirrorType) (f di : R)
    (d h : number) :
  kind <> PLANE ->
  let state := mkState kind (Fin f) d h in
  let newDo := calculateObjectDistance (Fin di) (Fin f) in
  (newDo > lit 0) && (newDo < lit 1000) = true ->
  objectDistance (App.handleImageDistanceChange state (Fin di)) = newDo
  /\ imageDistance
       (calculateImage (App.handleImageDistanceChange state (Fin di)))
     = Fin di.
Proof.
  intros Hk state newDo Hin.
  assert (Hstep : App.handleImageDistanceChange state (Fin di)
                  = mkState kind (Fin f) newDo h).
  { unfold App.handleImageDistanceChange, state.
    cbn [mirrorType focalLength]. cbv zeta. fold newDo. rewrite Hin.
    destruct kind; [contradiction | reflexivity | reflexivity]. }
  rewrite Hstep. split; [reflexivity |].
  rewrite curved_imageDistance by assumption.
  destruct (Req_dec_T di f) as [-> | Hdf].
  - exfalso. unfold newDo in Hin.
    change (calculateObjectDistance (Fin f) (Fin f))
      with (calculateImageDistance (Fin f) (Fin f)) in Hin.
    rewrite sentinel_at_finite_focus in Hin. discriminate.
  - unfold newDo in *. rewrite calculateObjectDistance_Fin in * by assumption.
    destruct (Req_dec_T f 0) as [-> | Hf].
    + exfalso. autorewrite with fin in Hin.
      destruct Rlt_dec as [Hpos | _]; [| discriminate].
      unfold Rdiv in Hpos. rewrite Rmult_0_r, Rmult_0_l in Hpos. lra.
    + destruct (quotient_involutive Hdf Hf) as [Hne Hq].
      rewrite calculateImageDistance_Fin by assumption. now rewrite Hq.
Qed.

Lemma accepted_drive_is_solved_witness :
  let state := mkState CONCAVE (Fin 100) (Fin 200) (Fin 50) in
  let newDo := calculateObjectDistance (Fin 300) (Fin 100) in
  CONCAVE <> PLANE
  /\ (newDo > lit 0) && (newDo < lit 1000) = true
  /\ objectDistance (App.handleImageDistanceChange state (Fin 300)) = newDo
  /\ imageDistance
       (calculateImage (App.handleImageDistanceChange state (Fin 300)))
     = Fin 300.
Proof.
  intros state newDo.
  assert (Hin : (newDo > lit 0) && (newDo < lit 1000) = true).
  { unfold newDo. rewrite calculateObjectDistance_Fin by lra.
    replace (300 * 100 / (300 - 100))%R with 150%R by field.
    autorewrite with fin.
    destruct (Rlt_dec 0 150); [| lra]. destruct (Rlt_dec 150 1000); [| lra].
    reflexivity. }
  split; [discriminate |]. split; [exact Hin |].
  apply (@accepted_drive_is_solved CONCAVE 100 300 (Fin 200) (Fin 50));
    [discriminate | exact Hin].
Defined.

(** X8.  In exact arithmetic, handing the Image Distance slider's own value
    back to the handler leaves the state as it is, for every mirror type,
    every finite focal length and every finite object distance in
    [(0, 1000)]: a too distant image shows as 0, which is refused, and any
    other value solves back to the object distance.  (On binary64 the solve
    back rounds, and the object distance can move by that rounding.) *)
Theorem slider_value_is_fixed_point (kind : MirrorType) (f d : R)
    (h : number) :
  (0 < d < 1000)%R ->
  let state := mkState kind (Fin f) (Fin d) h in
  App.handleImageDistanceChange state (Controls.imageDistanceSliderValue state)
  = state.
Proof.
  intros Hd state.
  destruct (MirrorType_eqb kind PLANE) eqn:Hplane.
  - assert (kind = PLANE) as -> by (now destruct kind).
    unfold Controls.imageDistanceSliderValue, App.image, state. simpl.
    rewrite Rabs_Ropp, Rabs_pos_eq by lra.
    destruct Rlt_dec; [lra |].
    unfold App.handleImageDistanceChange, App.setObjectDistance. simpl.
    now rewrite Rabs_Ropp, Rabs_pos_eq by lra.
  - assert (Hk : kind <> PLANE) by (intros ->; discriminate).
    assert (Hrefuse : forall v : number,
               (calculateObjectDistance v (Fin f) > lit 0)
               && (calculateObjectDistance v (Fin f) < lit 1000) = false ->
               App.handleImageDistanceChange state v = state).
    { intros v Hout. unfold App.handleImageDistanceChange, state.
      cbn [mirrorType focalLength]. cbv zeta. rewrite Hout.
      now destruct kind. }
    assert (Hzero : App.handleImageDistanceChange state (lit 0) = state).
    { apply Hrefuse. autorewrite with fin.
      destruct (Req_dec_T 0 f) as [<- | Hf].
      - change (calculateObjectDistance (Fin 0) (Fin 0))
          with (calculateImageDistance (Fin 0) (Fin 0)).
        now rewrite sentinel_at_finite_focus.
      - rewrite calculateObjectDistance_Fin by assumption.
        autorewrite with fin.
        destruct (Rlt_dec 0 (0 * f / (0 - f))) as [Hpos | _];
          [| reflexivity].
        exfalso. unfold Rdiv in Hpos. rewrite !Rmult_0_l in Hpos. lra. }
    unfold Controls.imageDistanceSliderValue, App.image.
    unfold state at 1 2 3. rewrite curved_imageDistance by assumption.
    destruct (Req_dec_T d f) as [-> | Hdf].
    + rewrite sentinel_at_finite_focus. exact Hzero.
    + rewrite calculateImageDistance_Fin by assumption. autorewrite with fin.
      destruct Rlt_dec; [exact Hzero |].
      destruct (Req_dec_T f 0) as [-> | Hf].
      * apply Hrefuse.
        replace (d * 0 / (d - 0))%R with 0%R by (field; lra).
        change (calculateObjectDistance (Fin 0) (Fin 0))
          with (calculateImageDistance (Fin 0) (Fin 0)).
        now rewrite sentinel_at_finite_focus.
      * destruct (quotient_involutive Hdf Hf) as [Hne Hq].
        unfold App.handleImageDistanceChange, state.
        cbn [mirrorType focalLength]. cbv zeta.
        rewrite calculateObjectDistance_Fin by assumption. rewrite Hq.
        autorewrite with fin.
        destruct (Rlt_dec 0 d); [| lra]. destruct (Rlt_dec d 1000); [| lra].
        now destruct kind.
Qed.

Lemma slider_value_is_fixed_point_witness :
  (0 < 200 < 1000)%R
  /\ App.handleImageDistanceChange
       (mkState CONVEX (Fin (-100)) (Fin 200) (Fin 50))
       (Controls.imageDistanceSliderValue
          (mkState CONVEX (Fin (-100)) (Fin 200) (Fin 50)))
     = mkState CONVEX (Fin (-100)) (Fin 200) (Fin 50).
Proof.
  split; [lra |].
  apply (@slider_value_is_fixed_point CONVEX (-100) 200 (Fin 50)). lra.
Defined.

(** X9.  On a plane mirror the handler sets the object distance to [|di|],
    so the image ends at [-|di|]: at the requested distance when that is
    not positive, and at its opposite when it is. *)
Theorem plane_drive_mirrors_positive_requests (f d h : number) (di : R) :
  let state := mkState PLANE f d h in
  let image := calculateImage (App.handleImageDistanceChange state (Fin di)) in
  objectDistance (App.handleImageDistanceChange state (Fin di))
  = Fin (Rabs di)
  /\ imageDistance image = Fin (- Rabs di)
  /\ ((di <= 0)%R -> imageDistance image = Fin di)
  /\ ((0 < di)%R ->
      imageDistance image = Fin (- di) /\ imageDistance image <> Fin di).
Proof.
  intros state image. unfold image, state. simpl. repeat split.
  - intros Hdi. now rewrite Rabs_left1, Ropp_involutive.
  - now rewrite Rabs_pos_eq by lra.
  - rewrite Rabs_pos_eq by lra. intros E. injection E. lra.
Qed.

End InverseDrive.

(** ** The states the controls can reach *)

Section ReachableStates.
Local Open Scope R_scope.

Lemma slider_range (a b v : Z) :
  ((a <=? v) && (v <=? b))%Z = true -> IZR a <= IZR v <= IZR b.
Proof.
  intros Hv. apply andb_true_iff in Hv as [Ha Hb].
  apply Z.leb_le in Ha, Hb. split; now apply IZR_le.
Qed.

Lemma inRange_intro (kind : MirrorType) (f d h : R) :
  match kind with
  | CONCAVE => 50 <= f <= 300
  | CONVEX => -300 <= f <= -50
  | PLANE => 50 <= f <= 300 \/ -300 <= f <= -50
  end ->
  0 <= d < 1000 -> 10 <= h <= 150 ->
  inRange (mkState kind (Fin f) (Fin d) (Fin h)).
Proof. intros Hf Hd Hh. exists f, d, h. now repeat split. Qed.

(** One event on offer keeps the state in range. *)
Lemma handle_keeps_range (state : SimulationState number)
    (e : Controls.Event) :
  inRange state -> Controls.offered state e = true ->
  inRange (Controls.handle state e).
Proof.
  intros (f & d & h & Est & Hf & Hd & Hh) Hoffer.
  destruct state as [kind f0 d0 h0]. simpl in Est, Hf.
  injection Est as -> -> ->.
  destruct e as [| type | v | v | v | v]; simpl in Hoffer.
  - apply inRange_intro; lra.
  - unfold Controls.handle, Controls.onMirrorTypeClick.
    cbn [focalLength objectDistance objectHeight]. autorewrite with fin.
    destruct type, kind; simpl;
      repeat match goal with
        | |- context [Rlt_dec ?a ?b] => destruct (Rlt_dec a b)
        end;
      simpl; apply inRange_intro; lra.
  - destruct kind; try discriminate;
      apply slider_range in Hoffer; apply inRange_intro; simpl; lra.
  - apply slider_range in Hoffer. apply inRange_intro; simpl; trivial; lra.
  - apply slider_range in Hoffer.
    unfold Controls.handle, Controls.onImageDistanceChange,
      App.handleImageDistanceChange.
    cbn [mirrorType focalLength]. autorewrite with fin.
    assert (Hcurved : forall kind' : MirrorType,
               match kind' with
               | CONCAVE => 50 <= f <= 300
               | CONVEX => -300 <= f <= -50
               | PLANE => 50 <= f <= 300 \/ -300 <= f <= -50
               end ->
               let state := mkState kind' (Fin f) (Fin d) (Fin h) in
               let newDo := calculateObjectDistance (Fin (IZR v)) (Fin f) in
               inRange (if (lit 0 < newDo)%js && (newDo < lit 1000)%js
                        then App.setObjectDistance state newDo else state)).
    { intros kind' Hf' state newDo. unfold newDo.
      destruct (Req_dec_T (IZR v) f) as [-> | Hvf].
      - change (calculateObjectDistance (Fin f) (Fin f))
          with (calculateImageDistance (Fin f) (Fin f)).
        rewrite sentinel_at_finite_focus. simpl.
        now apply inRange_intro.
      - rewrite calculateObjectDistance_Fin by assumption.
        autorewrite with fin.
        destruct Rlt_dec; simpl; [| now apply inRange_intro].
        destruct Rlt_dec; simpl; [| now apply inRange_intro].
        apply inRange_intro; trivial. lra. }
    destruct kind; [| exact (Hcurved CONCAVE Hf) | exact (Hcurved CONVEX Hf)].
    apply inRange_intro; trivial.
    unfold Rabs. destruct (Rcase_abs (IZR v)); lra.
  - apply slider_range in Hoffer. apply inRange_intro; simpl; trivial; lra.
Qed.

(** X10.  Whatever the user does with the controls, starting from the
    page's initial state, the values stay finite and in range: the focal
    length has magnitude 50 to 300 and the sign of a curved mirror's type,
    the object distance is in [[0, 1000)], the object height in
    [[10, 150]]. *)
Theorem controls_keep_state_in_range (events : list Controls.Event) :
  Controls.offeredAll (num := number) Controls.initialState events = true ->
  inRange (Controls.session Controls.initialState events).
Proof.
  assert (Hgen : forall (evs : list Controls.Event)
                        (state : SimulationState number),
             inRange state -> Controls.offeredAll state evs = true ->
             inRange (Controls.session state evs)).
  { induction evs as [| e rest IH]; intros state Hin Hall; simpl.
    - exact Hin.
    - simpl in Hall. apply andb_true_iff in Hall as [He Hrest].
      apply IH; [now apply handle_keeps_range | exact Hrest]. }
  apply Hgen. apply (@inRange_intro CONCAVE 100 200 50); simpl; lra.
Qed.

Lemma controls_keep_state_in_range_witness :
  let events :=
    [ Controls.MirrorTypeClick CONVEX; Controls.FocalLengthChange (-80);
      Controls.ImageDistanceChange (-40); Controls.ObjectHeightChange 120 ] in
  Controls.offeredAll (num := number) Controls.initialState events = true
  /\ inRange (Controls.session Controls.initialState events).
Proof.
  intros events.
  assert (Hall : Controls.offeredAll (num := number) Controls.initialState
                   events = true).
  { unfold events. simpl. unfold Controls.onMirrorTypeClick. simpl.
    destruct (Rlt_dec 0 100); [reflexivity | lra]. }
  split; [exact Hall |].
  now apply controls_keep_state_in_range.
Defined.

End ReachableStates.

Section ObjectOnMirror.
Local Open Scope R_scope.

(** X11.  An object distance of 0 is within reach of the controls (plane
    mirror, Image Distance slider at 0, then a curved type), and there a
    curved mirror has no magnification: the quotient [-di / do] is [0/0],
    so magnification and image height are [NaN]. *)
Theorem object_on_mirror_has_no_magnification :
  (forall (kind : MirrorType) (f h : R),
      kind <> PLANE -> f <> 0 ->
      calculateImage (mkState kind (Fin f) (Fin 0) (Fin h))
      = {| imageDistance := Fin 0; imageHeight := NaN;
           magnification := NaN; isReal := false |})
  /\ exists events : list Controls.Event,
       Controls.offeredAll (num := number) Controls.initialState events = true
       /\ Controls.session Controls.initialState events
          = mkState CONCAVE (Fin 100) (Fin 0) (Fin 50).
Proof.
  split.
  - intros kind f h Hk Hf.
    assert (E : calculateImage (mkState kind (Fin f) (Fin 0) (Fin h))
                = let di := calculateImageDistance (Fin 0) (Fin f) in
                  {| imageDistance := di;
                     imageHeight := ((- di) / Fin 0 * Fin h)%js;
                     magnification := ((- di) / Fin 0)%js;
                     isReal := (di > lit 0)%js |})
      by (destruct kind; [contradiction | reflexivity | reflexivity]).
    rewrite E. cbv zeta. rewrite calculateImageDistance_Fin by lra.
    replace (0 * f / (0 - f)) with 0 by (field; lra).
    autorewrite with fin. rewrite quot_zero_zero by lra.
    destruct (Rlt_dec 0 0); [lra | reflexivity].
  - exists [ Controls.MirrorTypeClick PLANE; Controls.ImageDistanceChange 0;
             Controls.MirrorTypeClick CONCAVE ].
    split; [reflexivity |].
    simpl. unfold Controls.onMirrorTypeClick, Controls.onImageDistanceChange.
    simpl. rewrite Rabs_R0.
    destruct (Rlt_dec 100 0); [lra | reflexivity].
Qed.

End ObjectOnMirror.

Lemma object_on_mirror_has_no_magnification_witness :
  CONCAVE <> PLANE /\ (100 <> 0)%R
  /\ calculateImage (mkState CONCAVE (Fin 100) (Fin 0) (Fin 50))
     = {| imageDistance := Fin 0; imageHeight := NaN;
          magnification := NaN; isReal := false |}.
Proof.
  split; [discriminate |]. split; [lra |].
  apply (proj1 object_on_mirror_has_no_magnification CONCAVE 100%R 50%R);
    [discriminate | lra].
Defined.

(** ** The plane mirror's line *)

Section PlaneIntersection.
Local Open Scope R_scope.

(** X12.  On a plane mirror, a segment that is not vertical is cut at the
    point of its line with abscissa [centerX]; a vertical segment gives an
    ordinate that is no finite number. *)
Theorem plane_intersection_on_line (W H x1 y1 x2 y2 : R) (f d h : number) :
  let state := mkState PLANE f d h in
  let canvas := mkCanvas (Fin W) (Fin H) in
  let p := App.getIntersection state canvas (Fin x1) (Fin y1) (Fin x2) (Fin y2)
  in
  (x1 <> x2 ->
   exists py : R,
     p = {| x := Fin (W / 2 - 100); y := Fin py |}
     /\ (py - y1) * (x2 - x1) = (W / 2 - 100 - x1) * (y2 - y1))
  /\ (x1 = x2 -> forall r : R, y p <> Fin r).
Proof.
  intros state canvas p.
  assert (E : p = {| x := Fin (W / 2 - 100);
                     y := (Fin y1
                           + Fin ((W / 2 - 100 - x1) * (y2 - y1))
                             / Fin (x2 - x1))%js |}).
  { unfold p, App.getIntersection, state, canvas. cbn [mirrorType].
    rewrite centerX_Fin. now autorewrite with fin. }
  rewrite E. split.
  - intros Hne. exists (y1 + (W / 2 - 100 - x1) * (y2 - y1) / (x2 - x1)).
    split.
    + rewrite quot_Fin by lra. now autorewrite with fin.
    + field. lra.
  - intros -> r. cbn [y].
    replace (x2 - x2) with 0 by ring.
    change (Ideal.add (Fin y1)
              (Ideal.div (Fin ((W / 2 - 100 - x2) * (y2 - y1))) (Fin 0))
            <> Fin r).
    rewrite div_Fin_zero. unfold Ideal.inf_signed.
    destruct total_order_T as [[? | ?] | ?]; simpl; discriminate.
Qed.

Lemma plane_intersection_on_line_witness :
  (100 <> 300)%R
  /\ exists py : R,
       App.getIntersection (mkState PLANE (Fin 100) (Fin 200) (Fin 50))
         (mkCanvas (Fin 800) (Fin 500)) (Fin 100) (Fin 200) (Fin 300) (Fin 250)
       = {| x := Fin (800 / 2 - 100); y := Fin py |}
       /\ (py - 200) * (300 - 100) = (800 / 2 - 100 - 100) * (250 - 200).
Proof.
  split; [lra |].
  apply (proj1 (@plane_intersection_on_line 800 500 100 200 300 250
                  (Fin 100) (Fin 200) (Fin 50))).
  lra.
Defined.

End PlaneIntersection.

(** ** Rays aimed inside the circle *)

Section AimedInside.
Local Open Scope R_scope.

(** A line aimed at a point inside or on the circle meets it: the
    discriminant is not negative. *)
Lemma discriminant_when_aimed_inside (cx cy r x1 y1 x2 y2 : R) :
  (x2 - cx) * (x2 - cx) + (y2 - cy) * (y2 - cy) <= r * r ->
  let dx := x2 - x1 in
  let dy := y2 - y1 in
  let A := dx * dx + dy * dy in
  let B := 2 * (dx * (x1 - cx) + dy * (y1 - cy)) in
  let C := (x1 - cx) * (x1 - cx) + (y1 - cy) * (y1 - cy) - r * r in
  0 <= B * B - 4 * A * C.
Proof.
  intros Hin dx dy A B C.
  assert (HA : 0 <= A).
  { pose proof (Rle_0_sqr dx). pose proof (Rle_0_sqr dy).
    unfold A, Rsqr in *. lra. }
  assert (Hq : A + B + C <= 0).
  { replace (A + B + C)
      with ((x2 - cx) * (x2 - cx) + (y2 - cy) * (y2 - cy) - r * r)
      by (unfold A, B, C, dx, dy; ring).
    lra. }
  replace (B * B - 4 * A * C)
    with ((2 * A + B) * (2 * A + B) + 4 * A * - (A + B + C)) by ring.
  assert (0 <= (2 * A + B) * (2 * A + B)) by apply Rle_0_sqr.
  assert (0 <= 4 * A * - (A + B + C)) by (apply Rmult_le_pos; lra).
  lra.
Qed.

(** X13.  In exact arithmetic, on a curved mirror, a segment with distinct
    finite endpoints whose second endpoint is strictly inside the mirror's
    circle does not take the fallback: the returned point is on the
    segment's line and on the circle.  (With the endpoint on the circle the
    discriminant can be 0, and there rounding decides on binary64.) *)
Theorem aimed_inside_meets_the_arc (W H f x1 y1 x2 y2 : R)
    (kind : MirrorType) (d h : number) :
  kind <> PLANE ->
  (x1, y1) <> (x2, y2) ->
  (x2 - (W / 2 - 100 - 2 * f)) * (x2 - (W / 2 - 100 - 2 * f))
  + (y2 - H / 2) * (y2 - H / 2) < 2 * f * (2 * f) ->
  exists t : R,
    App.getIntersection (mkState kind (Fin f) d h) (mkCanvas (Fin W) (Fin H))
      (Fin x1) (Fin y1) (Fin x2) (Fin y2)
    = {| x := Fin (x1 + t * (x2 - x1)); y := Fin (y1 + t * (y2 - y1)) |}
    /\ (x1 + t * (x2 - x1) - (W / 2 - 100 - 2 * f))
       * (x1 + t * (x2 - x1) - (W / 2 - 100 - 2 * f))
       + (y1 + t * (y2 - y1) - H / 2) * (y1 + t * (y2 - y1) - H / 2)
       = 2 * f * (2 * f).
Proof.
  intros Hk Hne Hstrict.
  pose proof (distinct_endpoints Hne) as HA.
  pose proof (Rlt_le _ _ Hstrict) as Hin.
  rewrite <- (Rabs_square (2 * f)) in Hin.
  pose proof (@discriminant_when_aimed_inside _ _ _ x1 y1 _ _ Hin) as Hdet.
  destruct (@getIntersection_nearest_root W H f x1 y1 x2 y2 kind d h Hk HA Hdet)
    as (t & Ht & Hp & _).
  exists t. split; [exact Hp |].
  rewrite <- (Rabs_square (2 * f)).
  now apply on_circle_iff_root.
Qed.

Lemma aimed_inside_meets_the_arc_witness :
  CONCAVE <> PLANE /\ (100, 200) <> (200, 250)
  /\ (200 - (800 / 2 - 100 - 2 * 100)) * (200 - (800 / 2 - 100 - 2 * 100))
     + (250 - 500 / 2) * (250 - 500 / 2) < 2 * 100 * (2 * 100)
  /\ exists t : R,
       App.getIntersection (mkState CONCAVE (Fin 100) (Fin 200) (Fin 50))
         (mkCanvas (Fin 800) (Fin 500)) (Fin 100) (Fin 200) (Fin 200) (Fin 250)
       = {| x := Fin (100 + t * (200 - 100));
            y := Fin (200 + t * (250 - 200)) |}
       /\ (100 + t * (200 - 100) - (800 / 2 - 100 - 2 * 100))
          * (100 + t * (200 - 100) - (800 / 2 - 100 - 2 * 100))
          + (200 + t * (250 - 200) - 500 / 2)
            * (200 + t * (250 - 200) - 500 / 2)
          = 2 * 100 * (2 * 100).
Proof.
  assert (Hne : (100, 200) <> (200, 250)) by (intros E; injection E; lra).
  assert (Hin : (200 - (800 / 2 - 100 - 2 * 100))
                * (200 - (800 / 2 - 100 - 2 * 100))
                + (250 - 500 / 2) * (250 - 500 / 2) < 2 * 100 * (2 * 100))
    by lra.
  split; [discriminate |]. split; [exact Hne |]. split; [exact Hin |].
  apply (@aimed_inside_meets_the_arc 800 500 100 100 200 200 250 CONCAVE
           (Fin 200) (Fin 50)); [discriminate | exact Hne | exact Hin].
Defined.

End AimedInside.

Section FocusAndCentreRays.
Local Open Scope R_scope.
Variables (W H f d h : R) (kind : MirrorType).

Let state := mkState kind (Fin f) (Fin d) (Fin h).
Let canvas := mkCanvas (Fin W) (Fin H).

Lemma objX_Fin : App.objX state canvas = Fin (W / 2 - 100 - d).
Proof. unfold App.objX, canvas. now rewrite centerX_Fin. Qed.

Lemma objY_Fin : App.objY state canvas = Fin (H / 2 - h).
Proof. unfold App.objY, canvas. now rewrite centerY_Fin. Qed.

(** From the object tip towards a point inside or on the circle. *)
Lemma object_ray_aimed_inside (x2 y2 : R) :
  kind <> PLANE ->
  x2 <> W / 2 - 100 - d \/ y2 <> H / 2 - h ->
  (x2 - (W / 2 - 100 - 2 * f)) * (x2 - (W / 2 - 100 - 2 * f))
  + (y2 - H / 2) * (y2 - H / 2) <= 2 * f * (2 * f) ->
  exists t : R,
    App.getIntersection state canvas (App.objX state canvas)
      (App.objY state canvas) (Fin x2) (Fin y2)
    = {| x := Fin (W / 2 - 100 - d + t * (x2 - (W / 2 - 100 - d)));
         y := Fin (H / 2 - h + t * (y2 - (H / 2 - h))) |}
    /\ (W / 2 - 100 - d + t * (x2 - (W / 2 - 100 - d))
        - (W / 2 - 100 - 2 * f))
       * (W / 2 - 100 - d + t * (x2 - (W / 2 - 100 - d))
          - (W / 2 - 100 - 2 * f))
       + (H / 2 - h + t * (y2 - (H / 2 - h)) - H / 2)
         * (H / 2 - h + t * (y2 - (H / 2 - h)) - H / 2)
       = 2 * f * (2 * f).
Proof.
  intros Hk Hne Hin.
  assert (HA : (x2 - (W / 2 - 100 - d)) * (x2 - (W / 2 - 100 - d))
               + (y2 - (H / 2 - h)) * (y2 - (H / 2 - h)) <> 0).
  { intros E. destruct (Rplus_sqr_eq_0 _ _ E). lra. }
  rewrite <- (Rabs_square (2 * f)) in Hin.
  pose proof (@discriminant_when_aimed_inside _ _ _
                (W / 2 - 100 - d) (H / 2 - h) _ _ Hin) as Hdet.
  destruct (@getIntersection_nearest_root W H f _ _ x2 y2 kind (Fin d) (Fin h)
              Hk HA Hdet) as (t & Ht & Hp & _).
  exists t. rewrite objX_Fin, objY_Fin. split; [exact Hp |].
  rewrite <- (Rabs_square (2 * f)).
  now apply on_circle_iff_root.
Qed.

(** X14.  In the effect of a curved mirror, for an object of nonzero
    height, the rays through the focus and through the centre of curvature
    never take the fallback: their reflection points are on the line from
    the object tip to [F], resp. [C], and on the mirror's circle; the image
    tip has the ordinate of the first of them. *)
Theorem focus_and_centre_rays_meet_the_arc :
  kind <> PLANE -> h <> 0 ->
  let ox := W / 2 - 100 - d in
  let oy := H / 2 - h in
  let cx := W / 2 - 100 - 2 * f in
  let cy := H / 2 in
  let onRay (r : DrawRay.call number) (x2 y2 : R) :=
    exists t : R,
      DrawRay.mx r = Fin (ox + t * (x2 - ox))
      /\ DrawRay.my r = Fin (oy + t * (y2 - oy))
      /\ (ox + t * (x2 - ox) - cx) * (ox + t * (x2 - ox) - cx)
         + (oy + t * (y2 - oy) - cy) * (oy + t * (y2 - oy) - cy)
         = 2 * f * (2 * f) in
  exists r1 r2 r3 : DrawRay.call number,
    App.rays state canvas = [r1; r2; r3]
    /\ onRay r2 (W / 2 - 100 - f) (H / 2)
    /\ onRay r3 (W / 2 - 100 - 2 * f) (H / 2)
    /\ App.imgTipY state canvas = DrawRay.my r2.
Proof.
  intros Hk Hh ox oy cx cy onRay.
  assert (HF : exists t : R,
             App.getIntersection state canvas (App.objX state canvas)
               (App.objY state canvas) (App.centerX canvas - Fin f)%js
               (App.centerY canvas)
             = {| x := Fin (ox + t * (W / 2 - 100 - f - ox));
                  y := Fin (oy + t * (H / 2 - oy)) |}
             /\ (ox + t * (W / 2 - 100 - f - ox) - cx)
                * (ox + t * (W / 2 - 100 - f - ox) - cx)
                + (oy + t * (H / 2 - oy) - cy) * (oy + t * (H / 2 - oy) - cy)
                = 2 * f * (2 * f)).
  { rewrite (centerX_Fin W H : App.centerX canvas = _).
    rewrite (centerY_Fin W H : App.centerY canvas = _).
    autorewrite with fin.
    apply object_ray_aimed_inside; [assumption | right; lra |].
    assert (0 <= f * f) by apply Rle_0_sqr. lra. }
  assert (HC : exists t : R,
             App.getIntersection state canvas (App.objX state canvas)
               (App.objY state canvas) (App.centerX canvas - lit 2 * Fin f)%js
               (App.centerY canvas)
             = {| x := Fin (ox + t * (W / 2 - 100 - 2 * f - ox));
                  y := Fin (oy + t * (H / 2 - oy)) |}
             /\ (ox + t * (W / 2 - 100 - 2 * f - ox) - cx)
                * (ox + t * (W / 2 - 100 - 2 * f - ox) - cx)
                + (oy + t * (H / 2 - oy) - cy) * (oy + t * (H / 2 - oy) - cy)
                = 2 * f * (2 * f)).
  { rewrite (centerX_Fin W H : App.centerX canvas = _).
    rewrite (centerY_Fin W H : App.centerY canvas = _).
    autorewrite with fin.
    apply object_ray_aimed_inside; [assumption | right; lra |].
    assert (0 <= f * f) by apply Rle_0_sqr. lra. }
  destruct HF as (tF & EF & HonF). destruct HC as (tC & EC & HonC).
  unfold App.rays, App.imgTipY.
  replace (mirrorType state) with kind by reflexivity.
  destruct kind; [contradiction | |]; cbv zeta;
    (do 3 eexists; split; [reflexivity |]);
    cbn [DrawRay.mx DrawRay.my focalLength state];
    (split; [exists tF; rewrite EF; now repeat split |]);
    (split; [exists tC; rewrite EC; now repeat split |]);
    reflexivity.
Qed.

End FocusAndCentreRays.

Lemma focus_and_centre_rays_meet_the_arc_witness :
  let state := mkState CONVEX (Fin (-100)) (Fin 200) (Fin 50) in
  let canvas := mkCanvas (Fin 800) (Fin 500) in
  CONVEX <> PLANE /\ (50 <> 0)%R
  /\ exists r1 r2 r3 : DrawRay.call number,
       App.rays state canvas = [r1; r2; r3]
       /\ App.imgTipY state canvas = DrawRay.my r2.
Proof.
  intros state canvas. split; [discriminate |]. split; [lra |].
  destruct (@focus_and_centre_rays_meet_the_arc 800 500 (-100) 200 50 CONVEX)
    as (r1 & r2 & r3 & Hrays & _ & _ & Htip); [discriminate | lra |].
  exists r1, r2, r3. split; [exact Hrays | exact Htip].
Defined.

(** ** The parallel ray *)

Section ParallelRay.
Local Open Scope R_scope.

Lemma Point_eta (p : Point R) : p = {| x := x p; y := y p |}.
Proof. now destruct p. Qed.

Lemma intersectR_horizontal (vx vy cx cy sr x1 y1 x2 : R) :
  x1 < x2 -> vx = cx + sr ->
  let k := y1 - cy in
  let p := intersectR vx vy cx cy (Rabs sr) x1 y1 x2 y1 in
  (sr * sr < k * k -> p = {| x := vx; y := vy |})
  /\ (k * k <= sr * sr -> 0 <= sr ->
      p = {| x := cx + sqrt (sr * sr - k * k); y := y1 |})
  /\ (k * k <= sr * sr -> sr <= 0 ->
      p = {| x := cx - sqrt (sr * sr - k * k); y := y1 |}).
Proof.
  intros Hx Hv k p.
  set (dx := x2 - x1). assert (Hdx : 0 < dx) by (unfold dx; lra).
  assert (Hdx2 : 0 < dx * dx) by (apply Rmult_lt_0_compat; assumption).
  pose proof (Rabs_square sr) as Hrr.
  set (rr := Rabs sr) in *.
  assert (HA : (x2 - x1) * (x2 - x1) + (y1 - y1) * (y1 - y1) <> 0)
    by (fold dx; replace (y1 - y1) with 0 by ring; lra).
  assert (Edet : 2 * ((x2 - x1) * (x1 - cx) + (y1 - y1) * (y1 - cy))
                 * (2 * ((x2 - x1) * (x1 - cx) + (y1 - y1) * (y1 - cy)))
                 - 4 * ((x2 - x1) * (x2 - x1) + (y1 - y1) * (y1 - y1))
                   * ((x1 - cx) * (x1 - cx) + (y1 - cy) * (y1 - cy) - rr * rr)
                 = 4 * (dx * dx) * (sr * sr - k * k))
    by (rewrite <- Hrr; unfold dx, k; ring).
  assert (Hhit : k * k <= sr * sr ->
            exists px : R,
              p = {| x := px; y := y1 |}
              /\ (px = cx + sqrt (sr * sr - k * k)
                  \/ px = cx - sqrt (sr * sr - k * k))
              /\ (forall s : R,
                    s = sqrt (sr * sr - k * k) \/ s = - sqrt (sr * sr - k * k) ->
                    Rabs (px - vx) <= Rabs (cx + s - vx))).
  { intros Hk.
    assert (Hdet : 0 <= 4 * (dx * dx) * (sr * sr - k * k))
      by (apply Rmult_le_pos; lra).
    rewrite <- Edet in Hdet.
    destruct (intersectR_nearest_root vx vy HA Hdet)
      as [(t & Ht & Ex & Ey) Hmin].
    fold p in Ex, Ey, Hmin. fold dx in Ex.
    assert (Hs : sqrt (sr * sr - k * k) * sqrt (sr * sr - k * k) = sr * sr - k * k)
      by (apply sqrt_sqrt; lra).
    apply on_circle_iff_root in Ht. fold dx in Ht. fold rr in Ht.
    exists (x1 + t * dx). repeat split.
    - rewrite (Point_eta p), Ex, Ey. f_equal. ring.
    - assert (E : (x1 + t * dx - cx - sqrt (sr * sr - k * k))
                  * (x1 + t * dx - cx + sqrt (sr * sr - k * k)) = 0).
      { replace (y1 + t * (y1 - y1) - cy) with k in Ht by (unfold k; ring).
        rewrite Hrr in Ht.
        replace ((x1 + t * dx - cx - sqrt (sr * sr - k * k))
                 * (x1 + t * dx - cx + sqrt (sr * sr - k * k)))
          with ((x1 + t * dx - cx) * (x1 + t * dx - cx)
                - sqrt (sr * sr - k * k) * sqrt (sr * sr - k * k)) by ring.
        lra. }
      destruct (Rmult_integral _ _ E); [left | right]; lra.
    - intros s Hsgn.
      assert (Hroot : s * s = sr * sr - k * k)
        by (destruct Hsgn as [-> | ->]; lra).
      rewrite <- Ex.
      replace (cx + s - vx) with (x1 + (cx + s - x1) / dx * (x2 - x1) - vx)
        by (fold dx; field; lra).
      apply Hmin. apply on_circle_iff_root. fold dx. fold rr. rewrite Hrr.
      replace (x1 + (cx + s - x1) / dx * dx - cx) with s by (field; lra).
      replace (y1 + (cx + s - x1) / dx * (y1 - y1) - cy) with k
        by (unfold k; field; lra).
      lra. }
  repeat split.
  - intros Hmiss. unfold p, intersectR. cbv zeta. fold rr. rewrite Edet.
    destruct Rlt_dec as [_ | Hge]; [reflexivity |].
    exfalso. apply Hge.
    replace (4 * (dx * dx) * (sr * sr - k * k))
      with (- (4 * (dx * dx) * (k * k - sr * sr))) by ring.
    assert (0 < 4 * (dx * dx) * (k * k - sr * sr))
      by (apply Rmult_lt_0_compat; lra).
    lra.
  - intros Hk HR. destruct (Hhit Hk) as (px & -> & Hpx & Hmin).
    f_equal. destruct Hpx as [-> | ->]; [reflexivity |].
    pose proof (sqrt_pos (sr * sr - k * k)) as Hs0.
    assert (Hs : sqrt (sr * sr - k * k) * sqrt (sr * sr - k * k) = sr * sr - k * k)
      by (apply sqrt_sqrt; lra).
    assert (HsR : sqrt (sr * sr - k * k) <= sr).
    { destruct (Rle_dec (sqrt (sr * sr - k * k)) sr); [assumption |].
      exfalso. assert (0 <= k * k) by apply Rle_0_sqr. nra. }
    specialize (Hmin (sqrt (sr * sr - k * k)) (or_introl eq_refl)).
    subst vx.
    replace (cx - sqrt (sr * sr - k * k) - (cx + sr))
      with (- (sqrt (sr * sr - k * k) + sr)) in Hmin by ring.
    replace (cx + sqrt (sr * sr - k * k) - (cx + sr))
      with (- (sr - sqrt (sr * sr - k * k))) in Hmin by ring.
    rewrite !Rabs_Ropp, !Rabs_pos_eq in Hmin by lra.
    assert (sqrt (sr * sr - k * k) = 0) by lra. lra.
  - intros Hk HR. destruct (Hhit Hk) as (px & -> & Hpx & Hmin).
    f_equal. destruct Hpx as [-> | ->]; [| reflexivity].
    pose proof (sqrt_pos (sr * sr - k * k)) as Hs0.
    assert (Hs : sqrt (sr * sr - k * k) * sqrt (sr * sr - k * k) = sr * sr - k * k)
      by (apply sqrt_sqrt; lra).
    assert (HsR : sqrt (sr * sr - k * k) <= - sr).
    { destruct (Rle_dec (sqrt (sr * sr - k * k)) (- sr)); [assumption |].
      exfalso. assert (0 <= k * k) by apply Rle_0_sqr. nra. }
    specialize (Hmin (- sqrt (sr * sr - k * k)) (or_intror eq_refl)).
    subst vx.
    replace (cx + sqrt (sr * sr - k * k) - (cx + sr))
      with (sqrt (sr * sr - k * k) - sr) in Hmin by ring.
    replace (cx + - sqrt (sr * sr - k * k) - (cx + sr))
      with (- (sqrt (sr * sr - k * k) + sr)) in Hmin by ring.
    rewrite Rabs_Ropp, Rabs_pos_eq, Rabs_left1 in Hmin by lra.
    assert (sqrt (sr * sr - k * k) = 0) by lra. lra.
Qed.

Variables (W H f d h : R) (kind : MirrorType).

Let state := mkState kind (Fin f) (Fin d) (Fin h).
Let canvas := mkCanvas (Fin W) (Fin H).

(** X15.  In exact arithmetic, the parallel ray of a curved mirror, for an
    object at a finite distance [d >= 0]: when the object is taller than the
    circle's radius ([h^2 > (2f)^2]) the ray misses the circle and its
    reflection point is the vertex; when it is shorter ([h^2 < (2f)^2]) the
    reflection point is at the object's height, on the circle, on the
    vertex's side of the centre: [x = Cx + sqrt ((2f)^2 - h^2)] for
    [f >= 0] and [x = Cx - sqrt ((2f)^2 - h^2)] for [f <= 0].  (At
    [h^2 = (2f)^2] the ray is tangent, the discriminant is 0 and rounding
    decides on binary64.) *)
Theorem parallel_ray_reflection_point :
  kind <> PLANE -> 0 <= d ->
  exists (r1 : DrawRay.call number) (rest : list (DrawRay.call number)),
    App.rays state canvas = r1 :: rest
    /\ (2 * f * (2 * f) < h * h ->
        DrawRay.mx r1 = Fin (W / 2 - 100) /\ DrawRay.my r1 = Fin (H / 2))
    /\ (h * h < 2 * f * (2 * f) -> 0 <= f ->
        DrawRay.mx r1
        = Fin (W / 2 - 100 - 2 * f + sqrt (2 * f * (2 * f) - h * h))
        /\ DrawRay.my r1 = Fin (H / 2 - h))
    /\ (h * h < 2 * f * (2 * f) -> f <= 0 ->
        DrawRay.mx r1
        = Fin (W / 2 - 100 - 2 * f - sqrt (2 * f * (2 * f) - h * h))
        /\ DrawRay.my r1 = Fin (H / 2 - h)).
Proof.
  intros Hk Hd.
  set (p := intersectR (W / 2 - 100) (H / 2) (W / 2 - 100 - 2 * f) (H / 2)
              (Rabs (2 * f)) (W / 2 - 100 - d) (H / 2 - h)
              (W / 2 - 100 + 100) (H / 2 - h)).
  assert (Hm1 : App.getIntersection state canvas (App.objX state canvas)
                  (App.objY state canvas) (App.centerX canvas + lit 100)%js
                  (App.objY state canvas)
                = {| x := Fin (x p); y := Fin (y p) |}).
  { rewrite (objX_Fin W H f d h kind : App.objX state canvas = _).
    rewrite (objY_Fin W H f d h kind : App.objY state canvas = _).
    rewrite (centerX_Fin W H : App.centerX canvas = _).
    autorewrite with fin. apply getIntersection_curved; [assumption |].
    replace (H / 2 - h - (H / 2 - h)) with 0 by ring.
    assert (0 < (W / 2 - 100 + 100 - (W / 2 - 100 - d))
                * (W / 2 - 100 + 100 - (W / 2 - 100 - d)))
      by (apply Rmult_lt_0_compat; lra).
    lra. }
  assert (Ek : (H / 2 - h - H / 2) * (H / 2 - h - H / 2) = h * h) by ring.
  destruct (@intersectR_horizontal (W / 2 - 100) (H / 2)
              (W / 2 - 100 - 2 * f) (H / 2) (2 * f) (W / 2 - 100 - d)
              (H / 2 - h) (W / 2 - 100 + 100)) as (Hmiss & Hpos & Hneg);
    [lra | ring |].
  fold p in Hmiss, Hpos, Hneg. rewrite Ek in Hmiss, Hpos, Hneg.
  assert (Hrays : exists (r1 : DrawRay.call number)
                         (rest : list (DrawRay.call number)),
             App.rays state canvas = r1 :: rest
             /\ DrawRay.mx r1 = Fin (x p) /\ DrawRay.my r1 = Fin (y p)).
  { unfold App.rays. replace (mirrorType state) with kind by reflexivity.
    destruct kind; [contradiction | |]; cbv zeta;
      (do 2 eexists; split; [reflexivity |]);
      cbn [DrawRay.mx DrawRay.my]; now rewrite Hm1. }
  destruct Hrays as (r1 & rest & Hrays & Emx & Emy).
  exists r1, rest. split; [exact Hrays |]. rewrite Emx, Emy.
  split; [intros Hm; now rewrite (Hmiss Hm) |].
  split; intros Hh Hf0.
  - rewrite (Hpos (Rlt_le _ _ Hh)) by lra. now split.
  - rewrite (Hneg (Rlt_le _ _ Hh)) by lra. now split.
Qed.

End ParallelRay.

Lemma parallel_ray_reflection_point_witness :
  let state := mkState CONCAVE (Fin 50) (Fin 200) (Fin 150) in
  let canvas := mkCanvas (Fin 800) (Fin 500) in
  CONCAVE <> PLANE /\ (0 <= 200)%R /\ (2 * 50 * (2 * 50) < 150 * 150)%R
  /\ exists (r1 : DrawRay.call number) (rest : list (DrawRay.call number)),
       App.rays state canvas = r1 :: rest
       /\ DrawRay.mx r1 = Fin (800 / 2 - 100)
       /\ DrawRay.my r1 = Fin (500 / 2).
Proof.
  intros state canvas.
  split; [discriminate |]. split; [lra |]. split; [lra |].
  destruct (@parallel_ray_reflection_point 800 500 50 200 150 CONCAVE)
    as (r1 & rest & Hrays & Hmiss & _); [discriminate | lra |].
  exists r1, rest. split; [exact Hrays |]. apply Hmiss. lra.
Defined.

(** ** The directions of the reflected rays *)

Section Directions.
Local Open Scope R_scope.

Lemma atan_cos_sin (z : R) : 0 < cos (atan z) /\ sin (atan z) = z * cos (atan z).
Proof.
  assert (Hc : 0 < cos (atan z)).
  { destruct (atan_bound z). apply cos_gt_0; lra. }
  split; [assumption |].
  pose proof (tan_atan z) as Ht. unfold tan in Ht.
  rewrite <- Ht at 2. field. lra.
Qed.

(** [Math.atan2 (y, x)] on finite arguments is the angle of the direction
    [(x, y)]: [(cos a, sin a)] is parallel to [(x, y)] and on its side. *)
Lemma atan2_direction (y x : R) :
  exists a : R,
    IdealMath.atan2 (Fin y) (Fin x) = Fin a
    /\ cos a * y = sin a * x
    /\ 0 <= cos a * x
    /\ 0 <= sin a * y
    /\ (x <> 0 -> cos a <> 0).
Proof.
  unfold IdealMath.atan2.
  destruct (total_order_T 0 x) as [[Hx | Hx] | Hx].
  - destruct (atan_cos_sin (y / x)) as [Hc Hs].
    exists (atan (y / x)). rewrite Hs. repeat split.
    + field. lra.
    + apply Rmult_le_pos; lra.
    + replace (y / x * cos (atan (y / x)) * y)
        with (cos (atan (y / x)) * (y * y) * / x) by (field; lra).
      apply Rmult_le_pos; [apply Rmult_le_pos; [lra | apply Rle_0_sqr] |].
      left. now apply Rinv_0_lt_compat.
    + lra.
  - subst x. destruct (total_order_T 0 y) as [[Hy | Hy] | Hy].
    + exists (PI / 2). rewrite cos_PI2, sin_PI2. repeat split; lra.
    + exists 0. rewrite cos_0, sin_0. repeat split; lra.
    + exists (- (PI / 2)). rewrite cos_neg, sin_neg, cos_PI2, sin_PI2.
      repeat split; lra.
  - destruct (atan_cos_sin (y / x)) as [Hc Hs].
    assert (Hyy : 0 <= cos (atan (y / x)) * (y * y) * / - x).
    { apply Rmult_le_pos; [apply Rmult_le_pos; [lra | apply Rle_0_sqr] |].
      left. apply Rinv_0_lt_compat. lra. }
    assert (Hcx : 0 < cos (atan (y / x)) * - x)
      by (apply Rmult_lt_0_compat; lra).
    assert (Eyy : - (y / x * cos (atan (y / x))) * y
                  = cos (atan (y / x)) * (y * y) * / - x) by (field; lra).
    destruct (Rlt_dec y 0).
    + exists (atan (y / x) - PI).
      rewrite cos_minus, sin_minus, cos_PI, sin_PI, Hs. repeat split.
      * field. lra.
      * lra.
      * rewrite <- Eyy in Hyy. lra.
      * lra.
    + exists (atan (y / x) + PI).
      rewrite neg_cos, neg_sin, Hs. repeat split.
      * field. lra.
      * lra.
      * rewrite <- Eyy in Hyy. lra.
      * lra.
Qed.

Lemma unit_direction (a : R) : cos a * cos a + sin a * sin a = 1.
Proof. pose proof (sin2_cos2 a) as E. unfold Rsqr in E. lra. Qed.

Variables (W H f d h : R) (kind : MirrorType).

Let state := mkState kind (Fin f) (Fin d) (Fin h).
Let canvas := mkCanvas (Fin W) (Fin H).

Lemma parallel_ray_point :
  kind <> PLANE -> 0 <= d ->
  exists mx my : R,
    App.getIntersection state canvas (App.objX state canvas)
      (App.objY state canvas) (App.centerX canvas + lit 100)%js
      (App.objY state canvas)
    = {| x := Fin mx; y := Fin my |}.
Proof.
  intros Hk Hd.
  rewrite (objX_Fin W H f d h kind : App.objX state canvas = _).
  rewrite (objY_Fin W H f d h kind : App.objY state canvas = _).
  rewrite (centerX_Fin W H : App.centerX canvas = _).
  autorewrite with fin. do 2 eexists.
  apply getIntersection_curved; [assumption |].
  replace (H / 2 - h - (H / 2 - h)) with 0 by ring.
  assert (0 < (W / 2 - 100 + 100 - (W / 2 - 100 - d))
              * (W / 2 - 100 + 100 - (W / 2 - 100 - d)))
    by (apply Rmult_lt_0_compat; lra).
  lra.
Qed.

(** X16.  The reflected part of the parallel ray of a curved mirror is a
    segment of length 1000 from the reflection point, on the line through
    the focus [F = (centerX - f, centerY)]: towards [F] for a concave
    mirror, away from it for a convex one. *)
Theorem reflected_parallel_ray_on_focus_line :
  kind <> PLANE -> 0 <= d ->
  exists (r1 : DrawRay.call number) (rest : list (DrawRay.call number))
         (mx my rx ry : R),
    App.rays state canvas = r1 :: rest
    /\ DrawRay.mx r1 = Fin mx /\ DrawRay.my r1 = Fin my
    /\ DrawRay.rx r1 = Fin rx /\ DrawRay.ry r1 = Fin ry
    /\ (rx - mx) * (H / 2 - my) = (ry - my) * (W / 2 - 100 - f - mx)
    /\ (rx - mx) * (rx - mx) + (ry - my) * (ry - my) = 1000 * 1000
    /\ (kind = CONCAVE ->
        0 <= (rx - mx) * (W / 2 - 100 - f - mx) + (ry - my) * (H / 2 - my))
    /\ (kind = CONVEX ->
        (rx - mx) * (W / 2 - 100 - f - mx) + (ry - my) * (H / 2 - my) <= 0).
Proof.
  intros Hk Hd.
  destruct (parallel_ray_point Hk Hd) as (mx & my & Hm1).
  destruct (atan2_direction (H / 2 - my) (W / 2 - 100 - f - mx))
    as (a & Ea & Hcross & Hcx & Hsy & _).
  destruct (atan2_direction (my - H / 2) (mx - (W / 2 - 100 - f)))
    as (b & Eb & Hcross' & Hcx' & Hsy' & _).
  pose proof (unit_direction a) as Ha. pose proof (unit_direction b) as Hb.
  unfold App.rays. replace (mirrorType state) with kind by reflexivity.
  destruct kind; [contradiction | |]; cbv zeta; cbn [MirrorType_eqb];
    rewrite Hm1; cbn [x y focalLength state];
    rewrite (centerX_Fin W H : App.centerX canvas = _);
    rewrite (centerY_Fin W H : App.centerY canvas = _);
    autorewrite with fin;
    change (@Math_atan2 number number_JSMath) with IdealMath.atan2;
    rewrite ?Ea, ?Eb.
  - exists (DrawRay.mk (App.objX state canvas) (App.objY state canvas)
              (Fin mx) (Fin my) (Fin (mx + 1000 * cos a))
              (Fin (my + 1000 * sin a)) "#6366f1"
              (negb (isReal (App.image state))) (App.imgTipX state canvas)
              (App.imgTipY state canvas)).
    eexists. exists mx, my, (mx + 1000 * cos a), (my + 1000 * sin a).
    split; [reflexivity |]. cbn [DrawRay.mx DrawRay.my DrawRay.rx DrawRay.ry].
    repeat split; try discriminate.
    + replace (mx + 1000 * cos a - mx) with (1000 * cos a) by ring.
      replace (my + 1000 * sin a - my) with (1000 * sin a) by ring.
      rewrite !Rmult_assoc. now rewrite Hcross.
    + replace (mx + 1000 * cos a - mx) with (1000 * cos a) by ring.
      replace (my + 1000 * sin a - my) with (1000 * sin a) by ring.
      replace (1000 * cos a * (1000 * cos a) + 1000 * sin a * (1000 * sin a))
        with (1000 * 1000 * (cos a * cos a + sin a * sin a)) by ring.
      rewrite Ha. ring.
    + intros _. 
      replace (mx + 1000 * cos a - mx) with (1000 * cos a) by ring.
      replace (my + 1000 * sin a - my) with (1000 * sin a) by ring.
      lra.
  - exists (DrawRay.mk (App.objX state canvas) (App.objY state canvas)
              (Fin mx) (Fin my) (Fin (mx + 1000 * cos b))
              (Fin (my + 1000 * sin b)) "#6366f1"
              (negb (isReal (App.image state))) (App.imgTipX state canvas)
              (App.imgTipY state canvas)).
    eexists. exists mx, my, (mx + 1000 * cos b), (my + 1000 * sin b).
    split; [reflexivity |]. cbn [DrawRay.mx DrawRay.my DrawRay.rx DrawRay.ry].
    repeat split; try discriminate.
    + replace (mx + 1000 * cos b - mx) with (1000 * cos b) by ring.
      replace (my + 1000 * sin b - my) with (1000 * sin b) by ring.
      lra.
    + replace (mx + 1000 * cos b - mx) with (1000 * cos b) by ring.
      replace (my + 1000 * sin b - my) with (1000 * sin b) by ring.
      replace (1000 * cos b * (1000 * cos b) + 1000 * sin b * (1000 * sin b))
        with (1000 * 1000 * (cos b * cos b + sin b * sin b)) by ring.
      rewrite Hb. ring.
    + intros _.
      replace (mx + 1000 * cos b - mx) with (1000 * cos b) by ring.
      replace (my + 1000 * sin b - my) with (1000 * sin b) by ring.
      lra.
Qed.

Lemma centre_ray_point :
  kind <> PLANE -> h <> 0 ->
  exists mx my : R,
    App.getIntersection state canvas (App.objX state canvas)
      (App.objY state canvas) (App.centerX canvas - lit 2 * Fin f)%js
      (App.centerY canvas)
    = {| x := Fin mx; y := Fin my |}.
Proof.
  intros Hk Hh.
  rewrite (centerX_Fin W H : App.centerX canvas = _).
  rewrite (centerY_Fin W H : App.centerY canvas = _).
  autorewrite with fin.
  destruct (@object_ray_aimed_inside W H f d h kind
              (W / 2 - 100 - 2 * f) (H / 2)) as (t & Hp & _).
  - assumption.
  - right. lra.
  - assert (0 <= f * f) by apply Rle_0_sqr. lra.
  - do 2 eexists. exact Hp.
Qed.

(** X17.  The reflected part of the ray through the centre of curvature,
    for an object of nonzero height: a segment of length 1000 from the
    reflection point, on the line through the centre
    [C = (centerX - 2f, centerY)], that never ends to the right of the
    reflection point. *)
Theorem reflected_centre_ray_on_radius :
  kind <> PLANE -> h <> 0 ->
  exists (r1 r2 r3 : DrawRay.call number) (mx my rx ry : R),
    App.rays state canvas = [r1; r2; r3]
    /\ DrawRay.mx r3 = Fin mx /\ DrawRay.my r3 = Fin my
    /\ DrawRay.rx r3 = Fin rx /\ DrawRay.ry r3 = Fin ry
    /\ (rx - mx) * (H / 2 - my) = (ry - my) * (W / 2 - 100 - 2 * f - mx)
    /\ (rx - mx) * (rx - mx) + (ry - my) * (ry - my) = 1000 * 1000
    /\ rx <= mx.
Proof.
  intros Hk Hh.
  destruct (centre_ray_point Hk Hh) as (mx & my & Hm3).
  destruct (atan2_direction (my - H / 2) (mx - (W / 2 - 100 - 2 * f)))
    as (a & Ea & Hcross & _).
  pose proof (unit_direction a) as Ha.
  unfold App.rays. replace (mirrorType state) with kind by reflexivity.
  destruct kind; [contradiction | |]; cbv zeta; cbn [focalLength state];
    rewrite Hm3; cbn [x y];
    rewrite (centerX_Fin W H : App.centerX canvas = _);
    rewrite (centerY_Fin W H : App.centerY canvas = _);
    autorewrite with fin;
    change (@Math_atan2 number number_JSMath) with IdealMath.atan2;
    rewrite Ea;
    change (Math_cos (Fin a)) with (Fin (cos a));
    change (Math_sin (Fin a)) with (Fin (sin a));
    autorewrite with fin;
    (destruct (Rlt_dec mx (mx + 1000 * cos a)) as [Hright | Hleft];
     do 3 eexists;
     [ exists mx, my, (mx - 1000 * cos a), (my - 1000 * sin a)
     | exists mx, my, (mx + 1000 * cos a), (my + 1000 * sin a) ];
     (split; [reflexivity |]);
     cbn [DrawRay.mx DrawRay.my DrawRay.rx DrawRay.ry];
     repeat split; try lra;
     repeat match goal with
       | |- context [?u + ?v - ?u] => replace (u + v - u) with v by ring
       | |- context [?u - ?v - ?u] => replace (u - v - u) with (- v) by ring
       end;
     lra).
Qed.

(** X18.  The two rays of a plane mirror, for an object at a finite
    distance [d > 0].  The first goes level to the mirror and level back to
    [x = -500].  The second goes to the vertex, and its reflected part runs
    from the vertex to [(centerX - 500, centerY - 500 h / d)], which is on
    the object's side of the axis: it lies along the incident ray, through
    the object tip. *)
Theorem plane_rays (fl : number) :
  0 < d ->
  let plane := mkState PLANE fl (Fin d) (Fin h) in
  exists r1 r2 : DrawRay.call number,
    App.rays plane canvas = [r1; r2]
    /\ DrawRay.mx r1 = Fin (W / 2 - 100) /\ DrawRay.my r1 = Fin (H / 2 - h)
    /\ DrawRay.rx r1 = Fin (-500) /\ DrawRay.ry r1 = Fin (H / 2 - h)
    /\ DrawRay.mx r2 = Fin (W / 2 - 100) /\ DrawRay.my r2 = Fin (H / 2)
    /\ DrawRay.rx r2 = Fin (W / 2 - 100 - 500)
    /\ DrawRay.ry r2 = Fin (H / 2 - 500 * h / d)
    /\ (W / 2 - 100 - d) - (W / 2 - 100)
       = d / 500 * (W / 2 - 100 - 500 - (W / 2 - 100))
    /\ (H / 2 - h) - H / 2 = d / 500 * (H / 2 - 500 * h / d - H / 2).
Proof.
  intros Hd plane.
  destruct (atan2_direction (H / 2 - h - H / 2)
              (W / 2 - 100 - d - (W / 2 - 100)))
    as (a & Ea & Hcross & _ & _ & Hcos).
  assert (Hc : cos a <> 0) by (apply Hcos; lra).
  assert (Etan : IdealMath.tan (Fin (- a)) = Fin (- (h / d))).
  { unfold IdealMath.tan, IdealMath.sin, IdealMath.cos.
    rewrite cos_neg, sin_neg, div_Fin by assumption. f_equal.
    apply Rmult_eq_reg_l with (cos a * d); [| nra].
    replace (cos a * d * (- sin a / cos a)) with (- (sin a * d))
      by (field; assumption).
    replace (cos a * d * - (h / d)) with (- (cos a * h)) by (field; lra).
    lra. }
  unfold App.rays, plane. cbn [mirrorType].
  unfold App.imgTipX, App.imgTipY, App.objX, App.objY.
  cbn [mirrorType objectDistance objectHeight].
  rewrite (centerX_Fin W H : App.centerX canvas = _).
  rewrite (centerY_Fin W H : App.centerY canvas = _).
  autorewrite with fin.
  change (@Math_atan2 number number_JSMath) with IdealMath.atan2.
  rewrite Ea. autorewrite with fin.
  change (@Math_tan number number_JSMath) with IdealMath.tan.
  rewrite Etan. autorewrite with fin.
  do 2 eexists. split; [reflexivity |].
  cbn [DrawRay.mx DrawRay.my DrawRay.rx DrawRay.ry].
  repeat split; try (f_equal; field; lra); field; lra.
Qed.
End Directions.

Lemma reflected_parallel_ray_on_focus_line_witness :
  CONCAVE <> PLANE /\ (0 <= 200)%R
  /\ exists (r1 : DrawRay.call number) (rest : list (DrawRay.call number))
            (mx my rx ry : R),
       App.rays (mkState CONCAVE (Fin 100) (Fin 200) (Fin 50))
         (mkCanvas (Fin 800) (Fin 500)) = r1 :: rest
       /\ DrawRay.mx r1 = Fin mx /\ DrawRay.my r1 = Fin my
       /\ DrawRay.rx r1 = Fin rx /\ DrawRay.ry r1 = Fin ry
       /\ ((rx - mx) * (500 / 2 - my)
           = (ry - my) * (800 / 2 - 100 - 100 - mx))%R.
Proof.
  split; [discriminate |]. split; [lra |].
  destruct (@reflected_parallel_ray_on_focus_line 800 500 100 200 50 CONCAVE)
    as (r1 & rest & mx & my & rx & ry & Hr & Hmx & Hmy & Hrx & Hry & Hline & _);
    [discriminate | lra |].
  exists r1, rest, mx, my, rx, ry. now repeat split.
Defined.

Lemma reflected_centre_ray_on_radius_witness :
  CONVEX <> PLANE /\ (50 <> 0)%R
  /\ exists (r1 r2 r3 : DrawRay.call number) (mx rx : R),
       App.rays (mkState CONVEX (Fin (-100)) (Fin 200) (Fin 50))
         (mkCanvas (Fin 800) (Fin 500)) = [r1; r2; r3]
       /\ DrawRay.mx r3 = Fin mx /\ DrawRay.rx r3 = Fin rx /\ (rx <= mx)%R.
Proof.
  split; [discriminate |]. split; [lra |].
  destruct (@reflected_centre_ray_on_radius 800 500 (-100) 200 50 CONVEX)
    as (r1 & r2 & r3 & mx & my & rx & ry & Hr & Hmx & _ & Hrx & _ & _ & _ & Hle);
    [discriminate | lra |].
  exists r1, r2, r3, mx, rx. now repeat split.
Defined.

Lemma plane_rays_witness :
  (0 < 200)%R
  /\ exists r1 r2 : DrawRay.call number,
       App.rays (mkState PLANE (Fin 100) (Fin 200) (Fin 50))
         (mkCanvas (Fin 800) (Fin 500)) = [r1; r2]
       /\ DrawRay.rx r2 = Fin (800 / 2 - 100 - 500)
       /\ DrawRay.ry r2 = Fin (500 / 2 - 500 * 50 / 200).
Proof.
  split; [lra |].
  destruct (@plane_rays 800 500 200 50 (Fin 100))
    as (r1 & r2 & Hr & _ & _ & _ & _ & _ & _ & Hrx & Hry & _); [lra |].
  exists r1, r2. now repeat split.
Defined.

(** ** The line dash after the effect *)

Section LineDash.
Context {num : Type} {N : JSNumber num} {M : JSMath num}.

Lemma lineDashAfter_app (a b : list (CanvasOp num)) (dash : list num) :
  lineDashAfter (a ++ b) dash = lineDashAfter b (lineDashAfter a dash).
Proof. apply fold_left_app. Qed.

Lemma drawArrow_keeps_dash (x1 y1 x2 y2 : num) (color label : string)
    (dash : list num) :
  lineDashAfter (App.drawArrow x1 y1 x2 y2 color label) dash = dash.
Proof. reflexivity. Qed.

Lemma drawRayCall_from_solid (r : DrawRay.call num) :
  lineDashAfter (App.drawRayCall r) [] = [].
Proof.
  unfold App.drawRayCall, App.drawRay.
  now destruct (DrawRay.showVirtual r).
Qed.

Lemma drawRays_from_solid (rays : list (DrawRay.call num)) :
  lineDashAfter (flat_map App.drawRayCall rays) [] = [].
Proof.
  induction rays as [| r rest IH]; [reflexivity |].
  cbn [flat_map]. now rewrite lineDashAfter_app, drawRayCall_from_solid.
Qed.

(** X19.  Whatever dash pattern the context had before, one run of the
    effect leaves it with the solid line: every dashed stretch (axis,
    virtual image arrow, virtual extensions) is closed by
    [setLineDash([])]. *)
Theorem effect_leaves_solid_line (state : SimulationState num)
    (canvas : Canvas num) (dash : list num) :
  lineDashAfter (App.effect state canvas) dash = [].
Proof.
  unfold App.effect. rewrite !lineDashAfter_app.
  assert (Haxis : forall d : list num,
             lineDashAfter (App.drawAxis canvas) d = []) by reflexivity.
  assert (Hmirror : lineDashAfter (App.drawMirror state canvas) [] = []).
  { unfold App.drawMirror. now destruct (mirrorType state). }
  assert (Hmarkers : lineDashAfter (App.drawMarkers state canvas) [] = []).
  { unfold App.drawMarkers. now destruct (mirrorType state). }
  assert (Hobject : lineDashAfter (App.drawObject state canvas) [] = [])
    by apply drawArrow_keeps_dash.
  assert (Himage : lineDashAfter (App.drawImage state canvas) [] = []).
  { unfold App.drawImage.
    destruct (lt (Math_abs (imageDistance (App.image state))) (lit 2000));
      [| reflexivity].
    now rewrite !lineDashAfter_app. }
  rewrite Haxis, Hmirror, Hmarkers, Hobject, Himage.
  apply drawRays_from_solid.
Qed.

End LineDash.

(** ** The image point and the constructions *)

Section ImagePoint.
Local Open Scope R_scope.
Variables (W H f d h : R).

Let canvas := mkCanvas (Fin W) (Fin H).

(** X20.  On a plane mirror the image tip is the mirror image of the
    object tip in the mirror's line [x = centerX]: as far behind it as the
    object tip is in front, at the same height. *)
Theorem plane_image_tip_mirrors_object_tip (fl : number) :
  let plane := mkState PLANE fl (Fin d) (Fin h) in
  exists ox ix ty : R,
    App.objX plane canvas = Fin ox /\ App.objY plane canvas = Fin ty
    /\ App.imgTipX plane canvas = Fin ix /\ App.imgTipY plane canvas = Fin ty
    /\ ix - (W / 2 - 100) = (W / 2 - 100) - ox.
Proof.
  intros plane.
  exists (W / 2 - 100 - d), (W / 2 - 100 - - d), (H / 2 - h).
  unfold App.objX, App.objY, App.imgTipX, App.imgTipY, App.image, plane.
  cbn [mirrorType objectDistance objectHeight calculateImage imageDistance
       imageHeight].
  rewrite (centerX_Fin W H : App.centerX canvas = _).
  rewrite (centerY_Fin W H : App.centerY canvas = _).
  autorewrite with fin. repeat split. ring.
Qed.

(** X21.  The image point of the solver for a curved mirror,
    [(centerX - di, centerY - imageHeight)], agrees with two paraxial
    constructions: it is on the line through the object tip and the centre
    of curvature, and its height is where the line from the object tip
    through the focus crosses the mirror's tangent [x = centerX]. *)
Theorem solved_image_point_on_construction_lines (kind : MirrorType) :
  kind <> PLANE -> d <> f -> d <> 0 ->
  let state := mkState kind (Fin f) (Fin d) (Fin h) in
  let vx := W / 2 - 100 in
  let vy := H / 2 in
  exists ix iy : R,
    App.imgTipX state canvas = Fin ix
    /\ (App.centerY canvas - imageHeight (App.image state))%js = Fin iy
    /\ (ix - (vx - 2 * f)) * (vy - h - vy) = (iy - vy) * (vx - d - (vx - 2 * f))
    /\ (iy - (vy - h)) * (vx - f - (vx - d)) = (vx - (vx - d)) * (vy - (vy - h)).
Proof.
  intros Hk Hdf Hd state vx vy.
  exists (vx - d * f / (d - f)), (vy - f / (f - d) * h).
  unfold App.imgTipX, App.image, state.
  rewrite calculateImage_Fin by assumption. cbn [imageDistance imageHeight].
  rewrite (centerX_Fin W H : App.centerX canvas = _).
  rewrite (centerY_Fin W H : App.centerY canvas = _).
  autorewrite with fin. repeat split; field; lra.
Qed.

End ImagePoint.

Lemma solved_image_point_on_construction_lines_witness :
  let state := mkState CONCAVE (Fin 100) (Fin 200) (Fin 50) in
  let canvas := mkCanvas (Fin 800) (Fin 500) in
  CONCAVE <> PLANE /\ (200 <> 100)%R /\ (200 <> 0)%R
  /\ exists ix iy : R,
       App.imgTipX state canvas = Fin ix
       /\ (App.centerY canvas - imageHeight (App.image state))%js = Fin iy
       /\ ((ix - (800 / 2 - 100 - 2 * 100)) * (500 / 2 - 50 - 500 / 2)
           = (iy - 500 / 2)
             * (800 / 2 - 100 - 200 - (800 / 2 - 100 - 2 * 100)))%R
       /\ ((iy - (500 / 2 - 50)) * (800 / 2 - 100 - 100 - (800 / 2 - 100 - 200))
           = (800 / 2 - 100 - (800 / 2 - 100 - 200))
             * (500 / 2 - (500 / 2 - 50)))%R.
Proof.
  intros state canvas.
  split; [discriminate |]. split; [lra |]. split; [lra |].
  apply (@solved_image_point_on_construction_lines 800 500 100 200 50 CONCAVE);
    [discriminate | lra | lra].
Defined.

Lemma sentinel_only_from_guard_witness :
  Fin 200 = Fin 200 /\ Fin 100 = Fin 100 /\ (200 <> 100)%R
  /\ exists q : R, calculateImageDistance (Fin 200) (Fin 100) = Fin q.
Proof.
  split; [reflexivity |]. split; [reflexivity |]. split; [lra |].
  apply (proj2 (proj2 (sentinel_only_from_guard (Fin 200) (Fin 100)))
           200%R 100%R); [reflexivity | reflexivity | lra].
Defined.

Lemma plane_drive_mirrors_positive_requests_witness :
  (0 < 300)%R
  /\ imageDistance
       (calculateImage
          (App.handleImageDistanceChange
             (mkState PLANE (Fin 100) (Fin 200) (Fin 50)) (Fin 300)))
     = Fin (- 300)
  /\ imageDistance
       (calculateImage
          (App.handleImageDistanceChange
             (mkState PLANE (Fin 100) (Fin 200) (Fin 50)) (Fin 300)))
     <> Fin 300.
Proof.
  split; [lra |].
  apply (proj2 (proj2 (proj2 (@plane_drive_mirrors_positive_requests
                                (Fin 100) (Fin 200) (Fin 50) 300%R)))).
  lra.
Defined.

(** ** Replay of the edge cases on binary64 *)

Section Binary64Edges.
Local Open Scope js_scope.
Let float := PrimFloat.float.
Let page : Canvas float := pageCanvas.

(** The session of X11: the magnification shown is [NaN]. *)
Lemma binary64_object_on_mirror :
  let events :=
    [ Controls.MirrorTypeClick PLANE; Controls.ImageDistanceChange 0;
      Controls.MirrorTypeClick CONCAVE ] in
  let state := Controls.session (num := float) Controls.initialState events in
  Controls.offeredAll (num := float) Controls.initialState events = true
  /\ (objectDistance state === lit 0) = true
  /\ (magnification (App.image state) === magnification (App.image state))
     = false.
Proof. vm_compute. repeat split. Qed.

(** A tall object before a short mirror ([f = 50], [h = 150]): the parallel
    ray misses the circle and is drawn to the vertex. *)
Lemma binary64_parallel_ray_misses :
  let state := mkState CONCAVE (lit 50 : float) (lit 200) (lit 150) in
  App.getIntersection state page (App.objX state page) (App.objY state page)
    (App.centerX page + lit 100) (App.objY state page)
  = {| x := lit 300; y := lit 250 |}.
Proof. vm_compute. reflexivity. Qed.

End Binary64Edges.

(** ** Where binary64 rounds

    The statements above that are made in exact arithmetic, replayed on
    binary64 at states of the page: the round trips come back within
    rounding, not to the same number, and a tangent ray (discriminant 0 in
    exact arithmetic) can get a negative discriminant. *)

Section Binary64Rounding.
Local Open Scope js_scope.
Let float := PrimFloat.float.
Let page : Canvas float := pageCanvas.

(** X7 at [f = 100], request 433: accepted, and the image comes back at
    [433.0000000000001]. *)
Lemma binary64_accepted_drive_rounds :
  let state := mkState CONCAVE (lit 100 : float) (lit 200) (lit 50) in
  let newDo := calculateObjectDistance (lit 433 : float) (lit 100) in
  let di := imageDistance
              (calculateImage (App.handleImageDistanceChange state (lit 433)))
  in
  (newDo > lit 0) && (newDo < lit 1000) = true
  /\ (di === lit 433) = false
  /\ (Math_abs (di - lit 433) < lit 1 / lit 1000000000) = true.
Proof. vm_compute. repeat split. Qed.

(** X8 at the convex state [f = -100], [do = 200]: the slider's value,
    handed back, moves the object distance to [200.00000000000003]. *)
Lemma binary64_slider_feedback_rounds :
  let state := mkState CONVEX (lit (-100) : float) (lit 200) (lit 50) in
  let after :=
    App.handleImageDistanceChange state
      (Controls.imageDistanceSliderValue state) in
  (objectDistance after === lit 200) = false
  /\ (Math_abs (objectDistance after - lit 200) < lit 1 / lit 1000000000)
     = true.
Proof. vm_compute. repeat split. Qed.

(** X13 and X15 at tangency ([h = 2|f| = 100], object distance set through
    the Image Distance slider): the parallel ray is aimed at a point of the
    circle, the discriminant rounds below 0 and the vertex [(300, 250)] is
    returned. *)
Lemma binary64_tangent_parallel_ray :
  let concave :=
    Controls.session (num := float) Controls.initialState
      [ Controls.FocalLengthChange 50; Controls.ObjectHeightChange 100;
        Controls.ImageDistanceChange (-550) ] in
  let convex :=
    Controls.session (num := float) Controls.initialState
      [ Controls.MirrorTypeClick CONVEX; Controls.FocalLengthChange (-50);
        Controls.ObjectHeightChange 100; Controls.ImageDistanceChange (-9) ] in
  App.getIntersection concave page (App.objX concave page)
    (App.objY concave page) (App.centerX page + lit 100)
    (App.objY concave page)
  = {| x := lit 300; y := lit 250 |}
  /\ App.getIntersection convex page (App.objX convex page)
       (App.objY convex page) (App.centerX page + lit 100)
       (App.objY convex page)
     = {| x := lit 300; y := lit 250 |}.
Proof. vm_compute. repeat split. Qed.

End Binary64Rounding.
